(** * Sokoban: the board model and the session controller

    A shallow embedding of the Sokoban rules engine of
    [exercise_6_2/sokoban2.py] (class [SokobanModel], with the push counter)
    and of the controller of [exercise_6_2/sokoban.py]
    (class [SokobanController], with the model of that file), followed by the
    properties of the board, of the level parser and of the scoring.

    Python values are modelled as follows:
    - an [int] is a [Z]; a position is a pair [(x, y)] of them;
    - a [set] of positions is a [gset (Z * Z)];
    - a [str] is the list of its code points, a code point is an [N];
    - an attribute that may never have been assigned is an [option];
    - a call that may raise returns a [result]. *)

From Stdlib Require Import ZArith NArith Ascii String.
From stdpp Require Import gmap list.

#[local] Open Scope Z_scope.
#[local] Set Warnings "-clear-no-such-hyp".

(** ** Python strings *)

(** A character is a Unicode code point; a [str] is a list of them. *)
Abbreviation char := N (only parsing).
Abbreviation str := (list N) (only parsing).

(** A string literal as a [str] (used to write levels down). *)
Definition str_of (s : string) : str :=
  N_of_ascii <$> list_ascii_of_string s.

(** [c.isspace()]: the characters that [str.strip()] removes when it is
    called without an argument. *)
Definition isspace (c : char) : bool :=
  ((9 <=? c) && (c <=? 13) || (28 <=? c) && (c <=? 32)
   || (c =? 133) || (c =? 160) || (c =? 5760)
   || (8192 <=? c) && (c <=? 8202)
   || (c =? 8232) || (c =? 8233) || (c =? 8239) || (c =? 8287)
   || (c =? 12288))%N.

Fixpoint lstrip (s : str) : str :=
  match s with
  | [] => []
  | c :: s' => if isspace c then lstrip s' else s
  end.

Definition rstrip (s : str) : str := rev (lstrip (rev s)).

(** [s.strip()]: whitespace is removed at both ends. *)
Definition strip (s : str) : str := lstrip (rstrip s).

(** [enumerate(l)]. *)
Fixpoint enumerate_from {A} (i : nat) (l : list A) : list (nat * A) :=
  match l with
  | [] => []
  | a :: l' => (i, a) :: enumerate_from (S i) l'
  end.

Definition enumerate {A} (l : list A) : list (nat * A) := enumerate_from 0 l.

(** ** Exceptions *)

Inductive exn := AttributeError | KeyError | IndexError | FileNotFoundError.

Inductive result (A : Type) :=
| Ok (a : A)
| Raise (e : exn).
Arguments Ok {A} a.
Arguments Raise {A} e.

Definition bind {A B} (r : result A) (k : A → result B) : result B :=
  match r with
  | Ok a => k a
  | Raise e => Raise e
  end.

Notation "'do!' x ← r ; k" := (bind r (λ x, k))
  (at level 10, x name, r at level 100, k at level 200,
   format "'do!'  x  ←  r ;  '/' k").
Notation "'do!' ' p ← r ; k" := (bind r (λ x, let 'p := x in k))
  (at level 10, p pattern, r at level 100, k at level 200,
   format "'do!'  ' p  ←  r ;  '/' k").

(** ** The enumerations shared by both files *)

(** [Symbol]: the display classification of a cell. *)
Inductive Symbol :=
| BOX | BOX_ON_GOAL | PLAYER | PLAYER_ON_GOAL | GOAL | WALL | FLOOR.

(** [Symbol.X.value]: the glyph of each symbol in a level file. *)
Definition Symbol_value (s : Symbol) : char :=
  match s with
  | BOX => 36            (* dollar sign *)
  | BOX_ON_GOAL => 42    (* asterisk *)
  | PLAYER => 64         (* at sign *)
  | PLAYER_ON_GOAL => 43 (* plus sign *)
  | GOAL => 46           (* full stop *)
  | WALL => 35           (* number sign *)
  | FLOOR => 45          (* hyphen *)
  end%N.

Inductive MoveResponse := INVALID_WALL | INVALID_BOX | VALID.

#[export] Instance MoveResponse_eq_dec : EqDecision MoveResponse.
Proof. solve_decision. Defined.

#[export] Instance Symbol_eq_dec : EqDecision Symbol.
Proof. solve_decision. Defined.

(** ** Level data *)

(** A row of [level_data]: a [str] (it has a [strip] method, and is
    stripped), or any other sequence of glyphs (taken as it is). *)
Inductive row :=
| RStr (s : str)
| RSeq (l : list char).

(** [row.strip() if hasattr(row, 'strip') else row] *)
Definition row_str (r : row) : list char :=
  match r with
  | RStr s => strip s
  | RSeq l => l
  end.

(** The level [rows] given as string literals, one per line. *)
Definition level_of (rows : list string) : list row :=
  (λ s, RStr (str_of s)) <$> rows.

(** ** The board: class [SokobanModel] of sokoban2.py *)

Module SokobanModel.

Record t := mk {
  walls : gset (Z * Z);
  boxes : gset (Z * Z);
  goals : gset (Z * Z);
  player : option (Z * Z);   (* [None]: [self.player] was never assigned *)
  move_count : Z;
  push_count : Z;
  size : nat * nat
}.

Definition set_boxes (self : t) (b : gset (Z * Z)) : t :=
  mk (walls self) b (goals self) (player self)
     (move_count self) (push_count self) (size self).
Definition set_goals (self : t) (g : gset (Z * Z)) : t :=
  mk (walls self) (boxes self) g (player self)
     (move_count self) (push_count self) (size self).
Definition set_walls (self : t) (w : gset (Z * Z)) : t :=
  mk w (boxes self) (goals self) (player self)
     (move_count self) (push_count self) (size self).
Definition set_player (self : t) (p : Z * Z) : t :=
  mk (walls self) (boxes self) (goals self) (Some p)
     (move_count self) (push_count self) (size self).
Definition set_move_count (self : t) (n : Z) : t :=
  mk (walls self) (boxes self) (goals self) (player self)
     n (push_count self) (size self).
Definition set_push_count (self : t) (n : Z) : t :=
  mk (walls self) (boxes self) (goals self) (player self)
     (move_count self) n (size self).

(** Reading [self.player]. *)
Definition get_player (self : t) : result (Z * Z) :=
  match player self with
  | Some p => Ok p
  | None => Raise AttributeError
  end.

(** [s.remove(x)] raises [KeyError] when [x] is not in [s]. *)
Definition set_remove (x : Z * Z) (s : gset (Z * Z)) : result (gset (Z * Z)) :=
  if decide (x ∈ s) then Ok (s ∖ {[x]}) else Raise KeyError.

(** The body of the [match symbol] statement of [__init__]. *)
Definition place (self : t) (pos : Z * Z) (symbol : char) : t :=
  if (symbol =? Symbol_value BOX)%N then
    set_boxes self (boxes self ∪ {[pos]})
  else if (symbol =? Symbol_value BOX_ON_GOAL)%N then
    let self := set_boxes self (boxes self ∪ {[pos]}) in
    set_goals self (goals self ∪ {[pos]})
  else if (symbol =? Symbol_value PLAYER)%N then
    set_player self pos
  else if (symbol =? Symbol_value PLAYER_ON_GOAL)%N then
    let self := set_player self pos in
    set_goals self (goals self ∪ {[pos]})
  else if (symbol =? Symbol_value GOAL)%N then
    set_goals self (goals self ∪ {[pos]})
  else if (symbol =? Symbol_value WALL)%N then
    set_walls self (walls self ∪ {[pos]})
  else self.

(** The inner loop, [for x, symbol in enumerate(row_str)]. *)
Definition scan_row (self : t) (y : nat) (r : list char) : t :=
  foldl (λ self '(x, symbol), place self (Z.of_nat x, Z.of_nat y) symbol)
        self (enumerate r).

(** The outer loop, [for y, row in enumerate(level_data)]. *)
Definition scan (self : t) (level_data : list row) : t :=
  foldl (λ self '(y, r), scan_row self y (row_str r))
        self (enumerate level_data).

(** [self.size], as [__init__] computes it before the scan. *)
Definition initial_size (level_data : list row) : nat * nat :=
  match level_data with
  | [] => (0, 0)%nat
  | r0 :: _ => (length (row_str r0), length level_data)
  end.

(** [SokobanModel.__init__(self, level_data)] *)
Definition init (level_data : list row) : t :=
  scan (mk ∅ ∅ ∅ None 0 0 (initial_size level_data)) level_data.

(** The expression [SokobanModel(level_data)]: [__init__] has no [raise]
    and nothing it calls can fail on a list of rows. *)
Definition new (level_data : list row) : result t := Ok (init level_data).

Definition is_empty (self : t) (x y : Z) : bool :=
  let pos := (x, y) in
  if decide (pos ∈ walls self) then false
  else if decide (pos ∈ boxes self) then false
  else true.

(** [move(self, dx, dy)]: the board after the call and the response. *)
Definition move (self : t) (dx dy : Z) : result (t * MoveResponse) :=
  do! '(x, y) ← get_player self;
  let '(nx, ny) := (x + dx, y + dy) in
  do! '(self, result) ←
    (if is_empty self nx ny then
       Ok (set_player self (nx, ny), VALID)
     else if decide ((nx, ny) ∈ boxes self) then
       let '(nnx, nny) := (nx + dx, ny + dy) in
       if is_empty self nnx nny then
         do! b ← set_remove (nx, ny) (boxes self);
         let self := set_boxes self b in
         let self := set_boxes self (boxes self ∪ {[(nnx, nny)]}) in
         let self := set_player self (nx, ny) in
         let self := set_push_count self (push_count self + 1) in
         Ok (self, VALID)
       else Ok (self, INVALID_BOX)
     else Ok (self, INVALID_WALL));
  let self :=
    if decide (result = VALID)
    then set_move_count self (move_count self + 1) else self in
  Ok (self, result).

Definition get_move_count (self : t) : Z := move_count self.
Definition get_push_count (self : t) : Z := push_count self.
Definition width (self : t) : nat := fst (size self).
Definition height (self : t) : nat := snd (size self).

(** [symbol(self, x, y)]; [pos == self.player] reads the attribute. *)
Definition symbol (self : t) (x y : Z) : result Symbol :=
  let pos := (x, y) in
  if decide (pos ∈ goals self) then
    if decide (pos ∈ boxes self) then Ok BOX_ON_GOAL
    else
      do! p ← get_player self;
      if decide (pos = p) then Ok PLAYER_ON_GOAL else Ok GOAL
  else if decide (pos ∈ boxes self) then Ok BOX
  else
    do! p ← get_player self;
    if decide (pos = p) then Ok PLAYER
    else if decide (pos ∈ walls self) then Ok WALL
    else Ok FLOOR.

(** The loop [for goal_pos in self.goals] of [is_level_complete], over the
    elements in the order the set yields them; [None] when the loop ends
    without returning. *)
Fixpoint goals_loop (self : t) (gs : list (Z * Z)) : option bool :=
  match gs with
  | [] => None
  | goal_pos :: gs' =>
      if decide (goal_pos ∉ boxes self) then Some false
      else goals_loop self gs'
  end.

Definition is_level_complete (self : t) : bool :=
  match goals_loop self (elements (goals self)) with
  | Some b => b
  | None => (0 <? base.size (goals self))%nat
  end.

End SokobanModel.

(** ** The session: sokoban.py *)

(** [l[i]] for a Python list: a negative index counts from the end. *)
Definition py_index {A} (l : list A) (i : Z) : result A :=
  let n := Z.of_nat (length l) in
  let j := if decide (i < 0) then i + n else i in
  if decide (0 ≤ j < n) then
    match l !! Z.to_nat j with
    | Some a => Ok a
    | None => Raise IndexError
    end
  else Raise IndexError.

(** [sum(l)] *)
Definition sum_list (l : list Z) : Z := foldr Z.add 0 l.

Module Sokoban.

(** *** Class [SokobanModel] of sokoban.py: the board without push counter.
    The controller calls [move], [get_move_count] and [is_level_complete];
    [width], [height] and [symbol] serve the view. *)

Record Model := mkModel {
  walls : gset (Z * Z);
  boxes : gset (Z * Z);
  goals : gset (Z * Z);
  player : option (Z * Z);
  move_count : Z;
  size : nat * nat
}.

Definition place (self : Model) (pos : Z * Z) (symbol : char) : Model :=
  let '(mkModel w b g p mc sz) := self in
  if (symbol =? Symbol_value BOX)%N then
    mkModel w (b ∪ {[pos]}) g p mc sz
  else if (symbol =? Symbol_value BOX_ON_GOAL)%N then
    mkModel w (b ∪ {[pos]}) (g ∪ {[pos]}) p mc sz
  else if (symbol =? Symbol_value PLAYER)%N then
    mkModel w b g (Some pos) mc sz
  else if (symbol =? Symbol_value PLAYER_ON_GOAL)%N then
    mkModel w b (g ∪ {[pos]}) (Some pos) mc sz
  else if (symbol =? Symbol_value GOAL)%N then
    mkModel w b (g ∪ {[pos]}) p mc sz
  else if (symbol =? Symbol_value WALL)%N then
    mkModel (w ∪ {[pos]}) b g p mc sz
  else self.

(** [SokobanModel.__init__(self, level_data)] *)
Definition Model_init (level_data : list row) : Model :=
  let size :=
    match level_data with
    | [] => (0, 0)%nat
    | r0 :: _ => (length (row_str r0), length level_data)
    end in
  foldl (λ self '(y, r),
           foldl (λ self '(x, symbol),
                    place self (Z.of_nat x, Z.of_nat y) symbol)
                 self (enumerate (row_str r)))
        (mkModel ∅ ∅ ∅ None 0 size) (enumerate level_data).

Definition is_empty (self : Model) (x y : Z) : bool :=
  let pos := (x, y) in
  if decide (pos ∈ walls self) then false
  else if decide (pos ∈ boxes self) then false
  else true.

Definition move (self : Model) (dx dy : Z) : result (Model * MoveResponse) :=
  do! '(x, y) ← match player self with
                | Some p => Ok p
                | None => Raise AttributeError
                end;
  let '(mkModel w b g p mc sz) := self in
  let '(nx, ny) := (x + dx, y + dy) in
  do! '(self, result) ←
    (if is_empty self nx ny then
       Ok (mkModel w b g (Some (nx, ny)) mc sz, VALID)
     else if decide ((nx, ny) ∈ b) then
       let '(nnx, nny) := (nx + dx, ny + dy) in
       if is_empty self nnx nny then
         do! b ← (if decide ((nx, ny) ∈ b) then Ok (b ∖ {[(nx, ny)]})
                  else Raise KeyError);
         Ok (mkModel w (b ∪ {[(nnx, nny)]}) g (Some (nx, ny)) mc sz, VALID)
       else Ok (self, INVALID_BOX)
     else Ok (self, INVALID_WALL));
  let self :=
    if decide (result = VALID)
    then mkModel (walls self) (boxes self) (goals self) (player self)
                 (move_count self + 1) (size self)
    else self in
  Ok (self, result).

Definition get_move_count (self : Model) : Z := move_count self.

Definition is_level_complete (self : Model) : bool :=
  (fix loop (gs : list (Z * Z)) : bool :=
     match gs with
     | [] => (0 <? base.size (goals self))%nat
     | goal_pos :: gs' =>
         if decide (goal_pos ∉ boxes self) then false else loop gs'
     end) (elements (goals self)).

Definition width (self : Model) : nat := fst (size self).
Definition height (self : Model) : nat := snd (size self).

(** [symbol(self, x, y)]; [pos == self.player] reads the attribute, which
    is there only when the level had an agent glyph. *)
Definition symbol (self : Model) (x y : Z) : result Symbol :=
  let pos := (x, y) in
  if decide (pos ∈ goals self) then
    if decide (pos ∈ boxes self) then Ok BOX_ON_GOAL
    else
      do! p ← match player self with
              | Some p => Ok p
              | None => Raise AttributeError
              end;
      if decide (pos = p) then Ok PLAYER_ON_GOAL else Ok GOAL
  else if decide (pos ∈ boxes self) then Ok BOX
  else
    do! p ← match player self with
            | Some p => Ok p
            | None => Raise AttributeError
            end;
    if decide (pos = p) then Ok PLAYER
    else if decide (pos ∈ walls self) then Ok WALL
    else Ok FLOOR.

(** *** What the view is asked to do

    The controller's calls of the view are kept as a log, in their order,
    each with its arguments: the board of a [Render] entry is the board
    [render] was called with. The log says which calls are made, not what
    they do: what pygame may raise in them (no display, a missing asset, a
    window too large) is outside of it, and so is what [render] itself does
    with the board, which [SokobanView.render] below gives. A session
    result [Ok st] therefore stands for the runs of the controller in which
    no call of the view raised. *)

Inductive Message :=
| MsgMove (r : MoveResponse)     (* the text of an invalid move response *)
| MsgLevelDone (level_score : Z) (* level finished, with the points won *)
| MsgLevel (number : Z)          (* the number of the level that starts *)
| MsgFinal (score : Z).          (* all levels finished, the final score *)

Inductive ViewCall :=
| SetupDisplay (m : Model)
| Render (m : Model)
| ShowScore (score level_number : Z)
| ShowMessage (msg : Message)
| Delay (ms : Z)
| ShowGameComplete (final_score : Z).

(** *** Class [SokobanController] *)

(** A level file stands for its lines, [list(f)]; [level_files] holds the
    files of the levels directory in the order of their sorted names. The
    files do not change while the game runs. *)
Record Controller := mkController {
  current_level_number : Z;
  score : Z;
  level_files : list (list row);
  model : Model;
  current_level : list row
}.

(** [SokobanController(level_number=n)], as [main] calls it; [level0] is
    the file levels/level0.xsb when there is one. *)
Definition Controller_init (files : list (list row))
    (level0 : option (list row)) (level_number : Z)
  : result (Controller * list ViewCall) :=
  do! xsb_file ←
    (if decide (0 ≤ level_number < Z.of_nat (length files))
     then py_index files level_number
     else match level0 with
          | Some f => Ok f
          | None => Raise FileNotFoundError
          end);
  let m := Model_init xsb_file in
  Ok (mkController level_number 0 files m xsb_file, [SetupDisplay m]).

(** The points for the board [m]. *)
Definition level_score (m : Model) : Z :=
  Z.max (10000 - (get_move_count m * 10)) 100.

Definition load_next_level (self : Controller)
  : result (Controller * bool * list ViewCall) :=
  let '(mkController number sc files m current) := self in
  let sc := sc + level_score m in
  let number := number + 1 in
  if decide (number < Z.of_nat (length files)) then
    do! next_level ← py_index files number;
    let m := Model_init next_level in
    Ok (mkController number sc files m next_level, true, [SetupDisplay m])
  else
    Ok (mkController number sc files m current, false, []).

Definition handle_move_response (self : Controller)
    (move_response : MoveResponse) : list ViewCall :=
  if decide (move_response ≠ VALID) then
    [ShowMessage (MsgMove move_response); Delay 500; Render (model self)]
  else [].

(** *** [game_loop] *)

Inductive Key :=
| K_w | K_UP | K_a | K_LEFT | K_s | K_DOWN | K_d | K_RIGHT
| K_ESCAPE | K_r | K_other.

Inductive Event := QUIT | KEYDOWN (key : Key) | OtherEvent.

(** The local variables of [game_loop] and what was shown so far. *)
Record Loop := mkLoop {
  ctl : Controller;
  running : bool;
  game_completed : bool;
  screen : list ViewCall
}.

Definition set_model (self : Controller) (m : Model) : Controller :=
  mkController (current_level_number self) (score self) (level_files self)
               m (current_level self).

(** The delta of a direction key. *)
Definition key_delta (key : Key) : option (Z * Z) :=
  match key with
  | K_w | K_UP => Some (0, -1)
  | K_a | K_LEFT => Some (-1, 0)
  | K_s | K_DOWN => Some (0, 1)
  | K_d | K_RIGHT => Some (1, 0)
  | _ => None
  end.

(** The part of the loop body under [if move_response:]. *)
Definition after_move (st : Loop) (move_response : MoveResponse)
  : result Loop :=
  let '(mkLoop self run done scr) := st in
  let scr := scr ++ handle_move_response self move_response in
  if decide (move_response = VALID) then
    let scr := scr ++ [Render (model self);
                       ShowScore (score self) (current_level_number self + 1)]
    in
    if is_level_complete (model self) then
      let scr := scr ++ [ShowMessage (MsgLevelDone (level_score (model self)));
                         Delay 1500] in
      do! '(self, has_next_level, calls) ← load_next_level self;
      let scr := scr ++ calls in
      if has_next_level then
        Ok (mkLoop self run done
              (scr ++ [ShowMessage (MsgLevel (current_level_number self + 1));
                       Delay 1000; Render (model self);
                       ShowScore (score self)
                                 (current_level_number self + 1)]))
      else
        Ok (mkLoop self false true
              (scr ++ [ShowMessage (MsgFinal (score self)); Delay 3000]))
    else Ok (mkLoop self run done scr)
  else Ok (mkLoop self run done scr).

(** The body of [for event in pygame.event.get()]. *)
Definition handle_event (st : Loop) (event : Event) : result Loop :=
  let st :=
    match event with
    | QUIT => mkLoop (ctl st) false (game_completed st) (screen st)
    | _ => st
    end in
  match event with
  | KEYDOWN key =>
      match key_delta key with
      | Some (dx, dy) =>
          do! '(m, move_response) ← move (model (ctl st)) dx dy;
          after_move (mkLoop (set_model (ctl st) m) (running st)
                             (game_completed st) (screen st))
                     move_response
      | None =>
          match key with
          | K_ESCAPE =>
              Ok (mkLoop (ctl st) false (game_completed st) (screen st))
          | K_r =>
              let self := set_model (ctl st)
                            (Model_init (current_level (ctl st))) in
              Ok (mkLoop self (running st) (game_completed st)
                    (screen st
                     ++ [Render (model self);
                         ShowScore (score self)
                                   (current_level_number self + 1)]))
          | _ => Ok st
          end
      end
  | _ => Ok st
  end.

(** One [for] loop over the events that a call of [pygame.event.get()]
    returned. *)
Fixpoint handle_events (st : Loop) (events : list Event) : result Loop :=
  match events with
  | [] => Ok st
  | event :: events' =>
      do! st ← handle_event st event; handle_events st events'
  end.

(** [while running], over the successive results of [pygame.event.get()];
    when they are used up the state reached so far is returned. *)
Fixpoint while_running (st : Loop) (batches : list (list Event))
  : result Loop :=
  match batches with
  | [] => Ok st
  | events :: batches' =>
      if running st then
        do! st ← handle_events st events; while_running st batches'
      else Ok st
  end.

(** [game_loop(self)] up to the final screen. *)
Definition game_loop (self : Controller) (batches : list (list Event))
  : result Loop :=
  let st := mkLoop self true false
              [Render (model self);
               ShowScore (score self) (current_level_number self + 1)] in
  do! st ← while_running st batches;
  Ok (if game_completed st
      then mkLoop (ctl st) (running st) (game_completed st)
                  (screen st ++ [ShowGameComplete (score (ctl st))])
      else st).

(** The points announced by the level-finished messages of a screen log, in
    the order of the messages. *)
Fixpoint announced (scr : list ViewCall) : list Z :=
  match scr with
  | [] => []
  | ShowMessage (MsgLevelDone level_score) :: scr' =>
      level_score :: announced scr'
  | _ :: scr' => announced scr'
  end.

End Sokoban.

(** ** The view of sokoban2.py: class [SokobanPygameView] *)

(** [range(n)] *)
Definition range (n : nat) : list Z := Z.of_nat <$> seq 0 n.

(** The results of a series of calls, in their order, up to the first that
    raises. *)
Fixpoint collect_results {A} (rs : list (result (list A)))
  : result (list A) :=
  match rs with
  | [] => Ok []
  | r :: rs' =>
      do! a ← r; do! b ← collect_results rs'; Ok (a ++ b)
  end.

Module SokobanPygameView.

(** The attributes of the view that its layout depends on; [window] is the
    size of the display surface [self.screen], as it was last asked of
    [pygame.display.set_mode]. *)
Record t := mk {
  screen_width : Z;
  screen_height : Z;
  tile_size : Z;
  window : Z * Z
}.

(** [SokobanPygameView(screen_width, screen_height, tile_size)] *)
Definition init (screen_width screen_height tile_size : Z) : t :=
  mk screen_width screen_height tile_size (screen_width, screen_height).

(** [setup_display(self, model)], [None] for no model. *)
Definition setup_display (self : t) (model : option SokobanModel.t) : t :=
  match model with
  | Some model =>
      let width := Z.max (screen_width self)
                     (Z.of_nat (SokobanModel.width model) * tile_size self) in
      let height := Z.max (screen_height self)
                      (Z.of_nat (SokobanModel.height model) * tile_size self)
      in
      if decide (width > screen_width self ∨ height > screen_height self)
      then mk (screen_width self) (screen_height self) (tile_size self)
              (width, height)
      else self
  | None => self
  end.

(** A call [self.screen.blit(self.images[symbol], dest)]. *)
Definition Blit : Type := Symbol * (Z * Z).

(** [render(self, model)]: the view after the call and the tiles drawn, in
    the order of the calls of [blit]. *)
Definition render (self : t) (model : SokobanModel.t)
  : result (t * list Blit) :=
  let self := setup_display self (Some model) in
  let offset_x :=
    Z.max 0 ((screen_width self
              - Z.of_nat (SokobanModel.width model) * tile_size self)
             `div` 2) in
  let offset_y :=
    Z.max 0 ((screen_height self
              - Z.of_nat (SokobanModel.height model) * tile_size self)
             `div` 2) in
  let floors : list Blit :=
    y ← range (SokobanModel.height model);
    x ← range (SokobanModel.width model);
    [(FLOOR, (offset_x + x * tile_size self, offset_y + y * tile_size self))]
  in
  do! others ←
    collect_results
      (y ← range (SokobanModel.height model);
       x ← range (SokobanModel.width model);
       [do! symbol ← SokobanModel.symbol model x y;
        Ok (if decide (symbol ≠ FLOOR)
            then [(symbol, (offset_x + x * tile_size self,
                            offset_y + y * tile_size self))]
            else [])]);
  Ok (self, floors ++ others).

(** A [pygame.Rect]: left, top, width, height. *)
Record Rect := mkRect { left : Z; top : Z; rect_width : Z; rect_height : Z }.

(** [rect.collidepoint(p)]: the right and bottom edges are outside. *)
Definition collidepoint (r : Rect) (p : Z * Z) : bool :=
  bool_decide (left r ≤ p.1 < left r + rect_width r
               ∧ top r ≤ p.2 < top r + rect_height r).

(** The button of the level of index [i] in [render_level_select]. *)
Definition level_button (self : t) (i : nat) : Rect :=
  let '(cols, rows) := (4, 3) in
  let '(btn_width, btn_height) := (120, 120) in
  let '(margin_x, margin_y) := (30, 30) in
  let total_width := cols * btn_width + (cols - 1) * margin_x in
  let start_x := (screen_width self - total_width) `div` 2 in
  let start_y := 100 in
  let col := Z.of_nat i `mod` cols in
  let row := Z.of_nat i `div` cols in
  let x := start_x + col * (btn_width + margin_x) in
  let y := start_y + row * (btn_height + margin_y) in
  mkRect x y btn_width btn_height.

(** What [render_level_select(self, level_files, completed_levels)]
    returns: the back button and the buttons of the levels. *)
Definition render_level_select {A} (self : t) (level_files : list A)
  : Rect * list Rect :=
  let back_btn := mkRect 20 20 120 40 in
  (back_btn, (λ '(i, _), level_button self i) <$> enumerate level_files).

End SokobanPygameView.

(** ** The view of sokoban.py: class [SokobanPygameView]

    The module has the name [SokobanView], the class of sokoban2.py having
    the one above. *)

Module SokobanView.

(** The attributes [render] reads: the tile size and the keys of the
    dictionary [images]. *)
Record t := mk {
  tile_size : Z;
  images : list Symbol
}.

(** A call [self.screen.blit(self.images[symbol], dest)]. *)
Definition Blit : Type := Symbol * (Z * Z).

(** [render(self, model)]: the tiles drawn, in the order of the calls of
    [blit]. *)
Definition render (self : t) (model : Sokoban.Model) : result (list Blit) :=
  collect_results
    (y ← range (Sokoban.height model);
     x ← range (Sokoban.width model);
     [do! symbol ← Sokoban.symbol model x y;
      Ok (if decide (symbol ∈ images self)
          then [(symbol, (x * tile_size self, y * tile_size self))]
          else [])]).

End SokobanView.

(** ** Notions used to state the properties *)

(** [pos] lies in the rectangle that [width()] and [height()] describe. *)
Definition in_rect (self : SokobanModel.t) (pos : Z * Z) : Prop :=
  0 ≤ pos.1 < Z.of_nat (SokobanModel.width self)
  ∧ 0 ≤ pos.2 < Z.of_nat (SokobanModel.height self).

(** The display classification in the words of the specification: a
    priority list, the first rule that applies wins. *)
Definition symbol_by_priority
    (self : SokobanModel.t) (agent pos : Z * Z) : Symbol :=
  if decide (pos ∈ SokobanModel.goals self ∧ pos ∈ SokobanModel.boxes self)
  then BOX_ON_GOAL
  else if decide (pos ∈ SokobanModel.goals self ∧ pos = agent)
  then PLAYER_ON_GOAL
  else if decide (pos ∈ SokobanModel.goals self) then GOAL
  else if decide (pos ∈ SokobanModel.boxes self) then BOX
  else if decide (pos = agent) then PLAYER
  else if decide (pos ∈ SokobanModel.walls self) then WALL
  else FLOOR.

(** The glyph that the scan meets at column [x] of row [y]: the character at
    index [x] of the row as [__init__] reads it. *)
Definition glyph_at (level_data : list row) (x y : nat) : option char :=
  r ← level_data !! y; row_str r !! x.

(** The cells of a level in the order of the scan (row by row, each row from
    its first column on), each with its position and its glyph. *)
Definition row_cells (y : nat) (r : list char) : list ((Z * Z) * char) :=
  (λ '(x, c), ((Z.of_nat x, Z.of_nat y), c)) <$> enumerate r.

Definition cells (level_data : list row) : list ((Z * Z) * char) :=
  enumerate level_data ≫= (λ '(y, r), row_cells y (row_str r)).

Definition is_agent_glyph (c : char) : bool :=
  ((c =? Symbol_value PLAYER) || (c =? Symbol_value PLAYER_ON_GOAL))%N.

(** The glyphs by the set they add their position to. *)
Definition is_box_glyph (c : char) : bool :=
  ((c =? Symbol_value BOX) || (c =? Symbol_value BOX_ON_GOAL))%N.

Definition is_goal_glyph (c : char) : bool :=
  ((c =? Symbol_value BOX_ON_GOAL) || (c =? Symbol_value PLAYER_ON_GOAL)
   || (c =? Symbol_value GOAL))%N.

Definition is_wall_glyph (c : char) : bool := (c =? Symbol_value WALL)%N.

(** The positions of the agent and agent-on-goal glyphs, in scan order. *)
Definition agent_cells (level_data : list row) : list (Z * Z) :=
  fst <$> filter (λ pc, is_agent_glyph pc.2 = true) (cells level_data).

(** The positions of the cells of [l] whose glyph passes the test [t],
    added to [X] one by one. *)
Definition collect (t : char → bool) (X : gset (Z * Z))
    (l : list ((Z * Z) * char)) : gset (Z * Z) :=
  foldl (λ X '(p, c), if t c then X ∪ {[p]} else X) X l.

(** [place] over a list of cells, from the first to the last. *)
Definition place_all (self : SokobanModel.t) (l : list ((Z * Z) * char))
  : SokobanModel.t :=
  foldl (λ self '(pos, c), SokobanModel.place self pos c) self l.

(** The boards that a game on [level_data] can be in: the constructed board,
    and every board that a returning call of [move] leaves behind. *)
Inductive reachable (level_data : list row) : SokobanModel.t → Prop :=
| reach_init : reachable level_data (SokobanModel.init level_data)
| reach_move self dx dy self' r :
    reachable level_data self →
    SokobanModel.move self dx dy = Ok (self', r) →
    reachable level_data self'.

(** Walls and boxes are disjoint, and the agent stands on neither. *)
Definition invariant (self : SokobanModel.t) : Prop :=
  SokobanModel.walls self ∩ SokobanModel.boxes self = ∅
  ∧ ∃ agent, SokobanModel.player self = Some agent
             ∧ (agent ∉ SokobanModel.walls self)
             ∧ (agent ∉ SokobanModel.boxes self).

(** ** Levels used as examples *)

(** The level of the first scenarios of the specification: an agent, a box
    and a goal in a row, framed by walls. *)
Definition framed_level : list row :=
  level_of ["#####"; "#@$.#"; "#####"]%string.

(** Levels without a frame. *)
Definition lone_agent_level : list row := level_of ["@"]%string.
Definition open_level : list row := level_of ["@$"]%string.

(** Two agent glyphs, the first of them on a goal. *)
Definition two_agents_level : list row := level_of ["+-@"]%string.

(** No agent glyph. *)
Definition no_agent_level : list row := level_of ["#$.#"]%string.

(** A row that starts with a blank. *)
Definition indented_level : list row := level_of [" #"]%string.

(** The event completes a level: it is a direction key whose move is valid
    and leaves the board [m] complete. *)
Definition completes (st : Sokoban.Loop) (event : Sokoban.Event)
    (m : Sokoban.Model) : Prop :=
  ∃ key dx dy,
    event = Sokoban.KEYDOWN key ∧ Sokoban.key_delta key = Some (dx, dy)
    ∧ Sokoban.move (Sokoban.model (Sokoban.ctl st)) dx dy = Ok (m, VALID)
    ∧ Sokoban.is_level_complete m = true.

(** From [st] to [st'] the score grew by the points announced in between
    and the level number by the number of these announcements. *)
Definition balanced (st st' : Sokoban.Loop) : Prop :=
  Sokoban.score (Sokoban.ctl st')
  - sum_list (Sokoban.announced (Sokoban.screen st'))
  = Sokoban.score (Sokoban.ctl st)
    - sum_list (Sokoban.announced (Sokoban.screen st))
  ∧ Sokoban.current_level_number (Sokoban.ctl st')
    - Z.of_nat (length (Sokoban.announced (Sokoban.screen st')))
    = Sokoban.current_level_number (Sokoban.ctl st)
      - Z.of_nat (length (Sokoban.announced (Sokoban.screen st))).

(** The board of sokoban2.py seen as a board of sokoban.py: the push
    counter is left out. *)
Definition forget_push_count (m : SokobanModel.t) : Sokoban.Model :=
  Sokoban.mkModel (SokobanModel.walls m) (SokobanModel.boxes m)
                  (SokobanModel.goals m) (SokobanModel.player m)
                  (SokobanModel.move_count m) (SokobanModel.size m).

(** A session of two levels, each solved by one push to the right. *)
Definition two_level_files : list (list row) := [framed_level; framed_level].
Definition two_pushes : list (list Sokoban.Event) :=
  [[Sokoban.KEYDOWN Sokoban.K_RIGHT]; [Sokoban.KEYDOWN Sokoban.K_d]].

(** What a session announces and whether it ends with all levels done. *)
Definition session_summary (files : list (list row))
    (level0 : option (list row)) (n : Z) (batches : list (list Sokoban.Event))
  : option (list Z * bool) :=
  match Sokoban.Controller_init files level0 n with
  | Ok (self, _) =>
      match Sokoban.game_loop self batches with
      | Ok st => Some (Sokoban.announced (Sokoban.screen st),
                       Sokoban.game_completed st)
      | Raise _ => None
      end
  | Raise _ => None
  end.

(** Where a session ends: the score, the level number, the number of level
    files, the points announced, and the flags [running] and
    [game_completed]. *)
Definition session_outcome (files : list (list row))
    (level0 : option (list row)) (n : Z) (batches : list (list Sokoban.Event))
  : option (Z * Z * nat * list Z * bool * bool) :=
  match Sokoban.Controller_init files level0 n with
  | Ok (self, _) =>
      match Sokoban.game_loop self batches with
      | Ok st => Some (Sokoban.score (Sokoban.ctl st),
                       Sokoban.current_level_number (Sokoban.ctl st),
                       length (Sokoban.level_files (Sokoban.ctl st)),
                       Sokoban.announced (Sokoban.screen st),
                       Sokoban.running st,
                       Sokoban.game_completed st)
      | Raise _ => None
      end
  | Raise _ => None
  end.

(** The events of the first call of [pygame.event.get()] in a session that
    goes on after its only level: a push to the right, which completes the
    level, then a step back to the left. *)
Definition push_then_step_back : list (list Sokoban.Event) :=
  [[Sokoban.KEYDOWN Sokoban.K_RIGHT; Sokoban.KEYDOWN Sokoban.K_LEFT]].

(** ** The parser in the words of the specification *)

(** The width as the specification words it: the length of the first row
    once whitespace is trimmed at its end. *)
Definition width_trailing_trim (level_data : list row) : nat :=
  match level_data with
  | [] => 0
  | RStr s :: _ => length (rstrip s)
  | RSeq l :: _ => length l
  end.

(** The glyph at column [x] of row [y] of the text, counted from the start
    of the row as it was given. *)
Definition glyph_at_column (level_data : list row) (x y : nat) : option char :=
  r ← level_data !! y;
  match r with
  | RStr s => rstrip s !! x
  | RSeq l => l !! x
  end.

(** Calls of [move] one after the other, one for each delta, as a caller
    makes them; the responses come in the order of the calls. *)
Fixpoint play (self : SokobanModel.t) (deltas : list (Z * Z))
  : result (SokobanModel.t * list MoveResponse) :=
  match deltas with
  | [] => Ok (self, [])
  | (dx, dy) :: deltas' =>
      do! '(self, r) ← SokobanModel.move self dx dy;
      do! '(self, rs) ← play self deltas';
      Ok (self, r :: rs)
  end.

(** The number of [VALID] responses in a list. *)
Definition count_valid (rs : list MoveResponse) : Z :=
  Z.of_nat (length (filter (λ r, r = VALID) rs)).

(** The level text has an agent or agent-on-goal glyph. *)
Definition has_agent (level_data : list row) : Prop :=
  agent_cells level_data ≠ [].

(** The board of the controller is one that calls of [move] reach from the
    board built from the current level file. *)
Definition board_of_level (self : Sokoban.Controller) : Prop :=
  ∃ m, reachable (Sokoban.current_level self) m
       ∧ Sokoban.model self = forget_push_count m.

(** The controller states of a session all of whose levels have an agent:
    every level file and the current level have an agent glyph and the level
    number is not negative. *)
Definition session_ok (self : Sokoban.Controller) : Prop :=
  has_agent (Sokoban.current_level self)
  ∧ Forall has_agent (Sokoban.level_files self)
  ∧ 0 ≤ Sokoban.current_level_number self
  ∧ board_of_level self.

(** A view call that hands a board to [render] hands one with a
    [player]. *)
Definition render_ready (c : Sokoban.ViewCall) : Prop :=
  match c with
  | Sokoban.Render m => is_Some (Sokoban.player m)
  | _ => True
  end.

(** The keys of [images] once [load_images] has filled it. *)
Definition loaded_images : list Symbol :=
  [WALL; BOX; GOAL; BOX_ON_GOAL; PLAYER; PLAYER_ON_GOAL].

(** Where [render] of sokoban2.py draws the tile of the cell [(x, y)]. *)
Definition tile_dest (self : SokobanPygameView.t) (model : SokobanModel.t)
    (x y : Z) : Z * Z :=
  (Z.max 0 ((SokobanPygameView.screen_width self
             - Z.of_nat (SokobanModel.width model)
               * SokobanPygameView.tile_size self) `div` 2)
   + x * SokobanPygameView.tile_size self,
   Z.max 0 ((SokobanPygameView.screen_height self
             - Z.of_nat (SokobanModel.height model)
               * SokobanPygameView.tile_size self) `div` 2)
   + y * SokobanPygameView.tile_size self).

(** The display surface is at least as large as the size the view was
    created with. *)
Definition window_ok (self : SokobanPygameView.t) : Prop :=
  SokobanPygameView.screen_width self ≤ (SokobanPygameView.window self).1
  ∧ SokobanPygameView.screen_height self
    ≤ (SokobanPygameView.window self).2.

(** The size of the board the display was last set up for, after the view
    calls [tr]; [last] is that size before them. *)
Fixpoint last_setup (last : option (nat * nat)) (tr : list Sokoban.ViewCall)
  : option (nat * nat) :=
  match tr with
  | [] => last
  | Sokoban.SetupDisplay m :: tr' => last_setup (Some (Sokoban.size m)) tr'
  | _ :: tr' => last_setup last tr'
  end.

(** Every [render(model)] among the view calls [tr] comes when the display
    was last set up for a board of the size of [model]. *)
Fixpoint renders_sized (last : option (nat * nat))
    (tr : list Sokoban.ViewCall) : Prop :=
  match tr with
  | [] => True
  | Sokoban.SetupDisplay m :: tr' =>
      renders_sized (Some (Sokoban.size m)) tr'
  | Sokoban.Render m :: tr' =>
      last = Some (Sokoban.size m) ∧ renders_sized last tr'
  | _ :: tr' => renders_sized last tr'
  end.

(** Unfolds a call of [move] on a board whose agent is known by [Hp]. *)
Ltac move_unfold Hp :=
  unfold SokobanModel.move, SokobanModel.get_player, SokobanModel.is_empty,
    SokobanModel.set_remove;
  rewrite Hp; cbn [bind].

(** * Properties of the board *)

Section Board.
Import SokobanModel.

Implicit Types (self : SokobanModel.t) (pos agent : Z * Z) (dx dy : Z).

(** The three ways through [move], as equations. *)

Lemma move_no_player self dx dy :
  player self = None → move self dx dy = Raise AttributeError.
Proof. intros H. unfold move, get_player. by rewrite H. Qed.

Lemma move_step self x y dx dy :
  player self = Some (x, y) →
  (x + dx, y + dy) ∉ walls self →
  (x + dx, y + dy) ∉ boxes self →
  move self dx dy =
    Ok (mk (walls self) (boxes self) (goals self) (Some (x + dx, y + dy))
           (move_count self + 1) (push_count self) (size self), VALID).
Proof.
  intros Hp Hw Hb. move_unfold Hp. by rewrite !decide_False by done.
Qed.

Lemma move_push self x y dx dy :
  player self = Some (x, y) →
  (x + dx, y + dy) ∈ boxes self →
  (x + dx + dx, y + dy + dy) ∉ walls self →
  (x + dx + dx, y + dy + dy) ∉ boxes self →
  move self dx dy =
    Ok (mk (walls self)
           (boxes self ∖ {[(x + dx, y + dy)]} ∪ {[(x + dx + dx, y + dy + dy)]})
           (goals self) (Some (x + dx, y + dy))
           (move_count self + 1) (push_count self + 1) (size self), VALID).
Proof.
  intros Hp Hb Hw' Hb'. move_unfold Hp.
  destruct (decide ((x + dx, y + dy) ∈ walls self));
    destruct (decide ((x + dx, y + dy) ∈ boxes self));
    destruct (decide ((x + dx + dx, y + dy + dy) ∈ walls self));
    destruct (decide ((x + dx + dx, y + dy + dy) ∈ boxes self));
    done.
Qed.

Lemma move_blocked self x y dx dy :
  player self = Some (x, y) →
  ((x + dx, y + dy) ∈ walls self ∨ (x + dx, y + dy) ∈ boxes self) →
  ((x + dx, y + dy) ∈ boxes self →
     (x + dx + dx, y + dy + dy) ∈ walls self
     ∨ (x + dx + dx, y + dy + dy) ∈ boxes self) →
  move self dx dy =
    Ok (self, if decide ((x + dx, y + dy) ∈ boxes self)
              then INVALID_BOX else INVALID_WALL).
Proof.
  intros Hp Hocc Hbeyond. move_unfold Hp.
  destruct (decide ((x + dx, y + dy) ∈ boxes self)) as [Hb|Hb].
  - destruct (Hbeyond Hb) as [Hw'|Hb'];
      destruct (decide ((x + dx, y + dy) ∈ walls self));
      destruct (decide ((x + dx + dx, y + dy + dy) ∈ walls self));
      destruct (decide ((x + dx + dx, y + dy + dy) ∈ boxes self));
      done.
  - destruct Hocc as [Hw|?]; [|done].
    by rewrite (decide_True (P := (_ ∈ walls self))) by done.
Qed.

(** [move] on a board with an agent: one of the three equations applies. *)
Lemma move_cases self x y dx dy :
  player self = Some (x, y) →
  let target := (x + dx, y + dy) in
  let beyond := (x + dx + dx, y + dy + dy) in
  ((target ∉ walls self) ∧ (target ∉ boxes self)
   ∧ move self dx dy =
       Ok (mk (walls self) (boxes self) (goals self) (Some target)
              (move_count self + 1) (push_count self) (size self), VALID))
  ∨ (target ∈ boxes self ∧ (beyond ∉ walls self) ∧ (beyond ∉ boxes self)
     ∧ move self dx dy =
         Ok (mk (walls self) (boxes self ∖ {[target]} ∪ {[beyond]})
                (goals self) (Some target)
                (move_count self + 1) (push_count self + 1) (size self),
             VALID))
  ∨ (target ∈ boxes self ∧ (beyond ∈ walls self ∨ beyond ∈ boxes self)
     ∧ move self dx dy = Ok (self, INVALID_BOX))
  ∨ (target ∈ walls self ∧ (target ∉ boxes self)
     ∧ move self dx dy = Ok (self, INVALID_WALL)).
Proof.
  intros Hp target beyond. subst target beyond.
  destruct (decide ((x + dx, y + dy) ∈ boxes self)) as [Hb|Hb].
  - destruct (decide ((x + dx + dx, y + dy + dy) ∈ walls self)) as [Hw'|Hw'];
      [|destruct (decide ((x + dx + dx, y + dy + dy) ∈ boxes self))
          as [Hb'|Hb']].
    + right; right; left. split_and!; [done|by left|].
      rewrite (move_blocked self x y) by auto. by rewrite decide_True.
    + right; right; left. split_and!; [done|by right|].
      rewrite (move_blocked self x y) by auto. by rewrite decide_True.
    + right; left. split_and!; try done. by apply move_push.
  - destruct (decide ((x + dx, y + dy) ∈ walls self)) as [Hw|Hw].
    + right; right; right. split_and!; try done.
      rewrite (move_blocked self x y) by tauto. by rewrite decide_False.
    + left. split_and!; try done. by apply move_step.
Qed.

End Board.

(** * Properties of the level parser *)

Section Enumerate.
Context {A : Type}.
Implicit Types (l : list A) (i k n : nat).

Lemma enumerate_from_lookup l i k :
  enumerate_from i l !! k = (λ a, ((i + k)%nat, a)) <$> l !! k.
Proof.
  revert i k. induction l as [|a l IH]; intros i [|k]; simpl; try done.
  - by rewrite Nat.add_0_r.
  - rewrite IH. by replace (S i + k)%nat with (i + S k)%nat by lia.
Qed.

Lemma elem_of_enumerate l n a : (n, a) ∈ enumerate l ↔ l !! n = Some a.
Proof.
  unfold enumerate. rewrite list_elem_of_lookup. split.
  - intros [k Hk]. rewrite enumerate_from_lookup in Hk.
    destruct (l !! k) eqn:E; simplify_eq/=. done.
  - intros H. exists n. rewrite enumerate_from_lookup, H. done.
Qed.

Lemma enumerate_from_app l1 l2 i :
  enumerate_from i (l1 ++ l2)
  = enumerate_from i l1 ++ enumerate_from (i + length l1) l2.
Proof.
  revert i. induction l1 as [|a l1 IH]; intros i; simpl.
  - by rewrite Nat.add_0_r.
  - rewrite IH. by replace (S i + length l1)%nat with (i + S (length l1))%nat by lia.
Qed.

End Enumerate.

Section Parser.
Import SokobanModel.

Implicit Types (self : SokobanModel.t) (pos : Z * Z) (c : char).
Implicit Types (level_data : list row) (l : list ((Z * Z) * char)).

Lemma foldl_bind {St B C} (f : St → C → St) (g : B → list C) (s : St)
    (bs : list B) :
  foldl f s (bs ≫= g) = foldl (λ s b, foldl f s (g b)) s bs.
Proof.
  revert s. induction bs as [|b bs IH]; intros s; simpl; [done|].
  by rewrite foldl_app, IH.
Qed.

Lemma foldl_fmap_l {St B C} (f : St → C → St) (g : B → C) (s : St)
    (bs : list B) :
  foldl f s (g <$> bs) = foldl (λ s b, f s (g b)) s bs.
Proof.
  revert s. induction bs as [|b bs IH]; intros s; simpl; [done|apply IH].
Qed.

Lemma foldl_ext_eq {St B} (f g : St → B → St) (s : St) (bs : list B) :
  (∀ s b, f s b = g s b) → foldl f s bs = foldl g s bs.
Proof.
  intros H. revert s. induction bs as [|b bs IH]; intros s; simpl; [done|].
  by rewrite H, IH.
Qed.

(** The two nested loops visit the cells in the order of [cells]. *)
Lemma scan_cells self level_data :
  scan self level_data = place_all self (cells level_data).
Proof.
  unfold scan, place_all, cells. rewrite foldl_bind.
  apply foldl_ext_eq. intros s [y r]. unfold scan_row, row_cells.
  rewrite foldl_fmap_l. apply foldl_ext_eq. by intros s' [x c].
Qed.

Lemma place_all_snoc self l pos c :
  place_all self (l ++ [(pos, c)]) = place (place_all self l) pos c.
Proof. unfold place_all. by rewrite foldl_app. Qed.

(** Every cell of the scan is a glyph of the level at its own position. *)
Lemma elem_of_cells level_data pos c :
  (pos, c) ∈ cells level_data
  ↔ ∃ x y : nat, pos = (Z.of_nat x, Z.of_nat y)
                 ∧ glyph_at level_data x y = Some c.
Proof.
  unfold cells, glyph_at. rewrite list_elem_of_bind. split.
  - intros [[y r] [Hin Hr]]. apply elem_of_enumerate in Hr.
    unfold row_cells in Hin. apply list_elem_of_fmap in Hin as [[x c'] [? Hx]].
    simplify_eq. apply elem_of_enumerate in Hx.
    exists x, y. split; [done|]. by rewrite Hr.
  - intros (x & y & -> & H). destruct (level_data !! y) as [r|] eqn:Hr; [|done].
    simpl in H. exists (y, r). split; [|by apply elem_of_enumerate].
    unfold row_cells. apply list_elem_of_fmap. exists (x, c).
    split; [done|]. by apply elem_of_enumerate.
Qed.

(** A position holds one glyph. *)
Lemma cells_functional level_data pos c1 c2 :
  (pos, c1) ∈ cells level_data → (pos, c2) ∈ cells level_data → c1 = c2.
Proof.
  rewrite !elem_of_cells. intros (x1 & y1 & -> & H1) (x2 & y2 & Heq & H2).
  assert (x1 = x2 ∧ y1 = y2) as [-> ->] by (split; injection Heq; lia).
  congruence.
Qed.

(** One step of the scan, field by field. *)
Lemma place_spec self pos c :
  place self pos c =
    mk (if is_wall_glyph c then walls self ∪ {[pos]} else walls self)
       (if is_box_glyph c then boxes self ∪ {[pos]} else boxes self)
       (if is_goal_glyph c then goals self ∪ {[pos]} else goals self)
       (if is_agent_glyph c then Some pos else player self)
       (move_count self) (push_count self) (size self).
Proof.
  destruct self as [w b g pl mc pc sz].
  unfold place, is_wall_glyph, is_box_glyph, is_goal_glyph, is_agent_glyph.
  cbn [Symbol_value].
  destruct (N.eqb_spec c 36) as [->|?]; [reflexivity|].
  destruct (N.eqb_spec c 42) as [->|?]; [reflexivity|].
  destruct (N.eqb_spec c 64) as [->|?]; [reflexivity|].
  destruct (N.eqb_spec c 43) as [->|?]; [reflexivity|].
  destruct (N.eqb_spec c 46) as [->|?]; [reflexivity|].
  destruct (N.eqb_spec c 35) as [->|?]; reflexivity.
Qed.

Lemma elem_of_collect (t : char → bool) (X : gset (Z * Z)) l pos :
  pos ∈ collect t X l ↔ pos ∈ X ∨ ∃ c, (pos, c) ∈ l ∧ t c = true.
Proof.
  unfold collect. revert X.
  induction l as [|[p c] l IH]; intros X; simpl.
  - split; [by left|]. intros [?|(c & H & _)]; [done|by inversion H].
  - rewrite IH. setoid_rewrite elem_of_cons. destruct (t c) eqn:E.
    + rewrite elem_of_union, elem_of_singleton. split.
      * intros [[?| ->]|(c0 & Hin & Hc)]; [by left| |].
        -- right. exists c. split; [by left|done].
        -- right. exists c0. split; [by right|done].
      * intros [?|(c0 & [Heq|Hin] & Hc)]; [by left; left| |].
        -- simplify_eq. by left; right.
        -- right. by exists c0.
    + split.
      * intros [?|(c0 & Hin & Hc)]; [by left|].
        right. exists c0. split; [by right|done].
      * intros [?|(c0 & [Heq|Hin] & Hc)]; [by left| |].
        -- congruence.
        -- right. by exists c0.
Qed.

Lemma place_all_fields self l :
  walls (place_all self l) = collect is_wall_glyph (walls self) l
  ∧ boxes (place_all self l) = collect is_box_glyph (boxes self) l
  ∧ goals (place_all self l) = collect is_goal_glyph (goals self) l
  ∧ move_count (place_all self l) = move_count self
  ∧ push_count (place_all self l) = push_count self
  ∧ size (place_all self l) = size self.
Proof.
  unfold place_all, collect. revert self.
  induction l as [|[p c] l IH]; intros self; simpl; [done|].
  destruct (IH (place self p c)) as (-> & -> & -> & -> & -> & ->).
  by rewrite place_spec.
Qed.

(** The agent is where the last agent glyph of the list stands. *)
Lemma place_all_player self l :
  player (place_all self l)
  = match last (filter (λ pc, is_agent_glyph pc.2 = true) l) with
    | Some pc => Some pc.1
    | None => player self
    end.
Proof.
  induction l as [|[p c] l IH] using rev_ind; [done|].
  rewrite place_all_snoc, place_spec, filter_app. cbn [player].
  destruct (is_agent_glyph c) eqn:E.
  - rewrite filter_cons_True by done. by rewrite filter_nil, last_snoc.
  - rewrite filter_cons_False by (simpl; congruence).
    by rewrite filter_nil, app_nil_r.
Qed.

(** What the constructed board holds, in terms of the cells of the level. *)
Lemma init_sets level_data pos :
  (pos ∈ walls (init level_data)
   ↔ ∃ c, (pos, c) ∈ cells level_data ∧ is_wall_glyph c = true)
  ∧ (pos ∈ boxes (init level_data)
     ↔ ∃ c, (pos, c) ∈ cells level_data ∧ is_box_glyph c = true)
  ∧ (pos ∈ goals (init level_data)
     ↔ ∃ c, (pos, c) ∈ cells level_data ∧ is_goal_glyph c = true).
Proof.
  unfold init. rewrite scan_cells.
  destruct (place_all_fields
              (mk ∅ ∅ ∅ None 0 0 (initial_size level_data))
              (cells level_data)) as (-> & -> & -> & _).
  rewrite !elem_of_collect. cbn [walls boxes goals].
  split_and!; (split; [intros [H|H]; [by apply not_elem_of_empty in H|done]
                      |by right]).
Qed.

Lemma init_player level_data :
  player (init level_data) = last (agent_cells level_data).
Proof.
  unfold init, agent_cells. rewrite scan_cells, place_all_player, fmap_last.
  by destruct (last _).
Qed.

Lemma init_counters level_data :
  move_count (init level_data) = 0
  ∧ push_count (init level_data) = 0
  ∧ size (init level_data) = initial_size level_data.
Proof.
  unfold init. rewrite scan_cells.
  by destruct (place_all_fields
                 (mk ∅ ∅ ∅ None 0 0 (initial_size level_data))
                 (cells level_data)) as (_ & _ & _ & -> & -> & ->).
Qed.

(** The agent of the constructed board stands on an agent glyph. *)
Lemma init_player_glyph level_data agent :
  player (init level_data) = Some agent →
  ∃ c, (agent, c) ∈ cells level_data ∧ is_agent_glyph c = true.
Proof.
  rewrite init_player. unfold agent_cells. rewrite fmap_last.
  destruct (last _) as [[p c]|] eqn:E; [|done]. intros [= <-].
  apply last_Some_elem_of, list_elem_of_filter in E as [Hc Hin].
  by exists c.
Qed.

Lemma init_has_player level_data :
  agent_cells level_data ≠ [] → is_Some (player (init level_data)).
Proof. rewrite init_player. apply last_is_Some. Qed.

Lemma init_no_player level_data :
  agent_cells level_data = [] → player (init level_data) = None.
Proof. rewrite init_player. apply last_None. Qed.

(** No glyph is of two kinds among wall, box and agent. *)
Lemma glyph_kinds_disjoint c :
  (is_wall_glyph c = true → is_box_glyph c = false)
  ∧ (is_agent_glyph c = true
     → is_wall_glyph c = false ∧ is_box_glyph c = false).
Proof.
  unfold is_wall_glyph, is_box_glyph, is_agent_glyph. cbn [Symbol_value].
  split.
  - by destruct (N.eqb_spec c 35) as [->|?].
  - destruct (N.eqb_spec c 64) as [->|?]; [done|].
    by destruct (N.eqb_spec c 43) as [->|?].
Qed.

(** Construction establishes the invariant when the level has an agent. *)
Lemma init_invariant level_data :
  agent_cells level_data ≠ [] → invariant (init level_data).
Proof.
  intros Hag. split.
  - apply set_eq. intros pos. rewrite elem_of_intersection.
    destruct (init_sets level_data pos) as (Hw & Hb & _). rewrite Hw, Hb.
    split; [|by intros ?%not_elem_of_empty].
    intros [(c1 & H1 & Hc1) (c2 & H2 & Hc2)].
    assert (c1 = c2) as -> by eauto using cells_functional.
    apply glyph_kinds_disjoint in Hc1. congruence.
  - destruct (init_has_player _ Hag) as [agent Hp]. exists agent.
    destruct (init_player_glyph _ _ Hp) as (c & Hin & Hc).
    apply glyph_kinds_disjoint in Hc as [Hnw Hnb].
    destruct (init_sets level_data agent) as (Hw & Hb & _).
    rewrite Hw, Hb. split_and!; [done| |].
    + intros (c' & Hin' & Hc').
      assert (c' = c) as -> by eauto using cells_functional. congruence.
    + intros (c' & Hin' & Hc').
      assert (c' = c) as -> by eauto using cells_functional. congruence.
Qed.

End Parser.

(** * Reachable boards *)

Section Reachable.
Import SokobanModel.

Implicit Types (self : SokobanModel.t) (dx dy : Z) (level_data : list row).

(** A returning [move] says which of its four ways it took. *)
Lemma move_inv self dx dy self' r :
  move self dx dy = Ok (self', r) →
  ∃ x y, player self = Some (x, y)
    ∧ (let target := (x + dx, y + dy) in
       let beyond := (x + dx + dx, y + dy + dy) in
       (r = VALID ∧ (target ∉ walls self) ∧ (target ∉ boxes self)
        ∧ self' = mk (walls self) (boxes self) (goals self) (Some target)
                     (move_count self + 1) (push_count self) (size self))
       ∨ (r = VALID ∧ target ∈ boxes self
          ∧ (beyond ∉ walls self) ∧ (beyond ∉ boxes self)
          ∧ self' = mk (walls self) (boxes self ∖ {[target]} ∪ {[beyond]})
                       (goals self) (Some target)
                       (move_count self + 1) (push_count self + 1)
                       (size self))
       ∨ (r ≠ VALID ∧ self' = self)).
Proof.
  intros Hm. destruct (player self) as [[x y]|] eqn:Hp;
    [|by rewrite move_no_player in Hm].
  exists x, y. split; [done|]. intros target beyond.
  destruct (move_cases self x y dx dy Hp)
    as [(? & ? & E)|[(? & ? & ? & E)|[(? & ? & E)|(? & ? & E)]]];
    rewrite E in Hm; simplify_eq; auto 10.
Qed.

Lemma move_returns self dx dy :
  is_Some (player self) → ∃ self' r, move self dx dy = Ok (self', r).
Proof.
  intros [[x y] Hp].
  destruct (move_cases self x y dx dy Hp)
    as [(? & ? & E)|[(? & ? & ? & E)|[(? & ? & E)|(? & ? & E)]]]; eauto.
Qed.

Lemma move_keeps_player self dx dy self' r :
  move self dx dy = Ok (self', r) → is_Some (player self').
Proof.
  intros (x & y & Hp & [(_ & _ & _ & ->)|[(_ & _ & _ & _ & ->)|[_ ->]]])%move_inv;
    simpl; eauto.
Qed.

(** [move] never lowers a counter, and a push is a move. *)
Lemma move_counters self dx dy self' r :
  move self dx dy = Ok (self', r) →
  move_count self ≤ move_count self'
  ∧ push_count self ≤ push_count self'
  ∧ push_count self' - push_count self ≤ move_count self' - move_count self.
Proof.
  intros (x & y & Hp & [(_ & _ & _ & ->)|[(_ & _ & _ & _ & ->)|[_ ->]]])%move_inv;
    simpl; lia.
Qed.

(** [move] keeps the invariant. *)
Lemma move_invariant self dx dy self' r :
  invariant self → move self dx dy = Ok (self', r) → invariant self'.
Proof.
  intros [Hd (agent & Hag & Hw & Hb)] (x & y & Hp & Hcases)%move_inv.
  rewrite Hp in Hag. injection Hag as <-.
  destruct Hcases as [(_ & Hnw & Hnb & ->)|[(_ & Htb & Hnw & Hnb & ->)|[_ ->]]].
  - split; [done|]. by exists (x + dx, y + dy).
  - assert ((x + dx, y + dy) ≠ (x + dx + dx, y + dy + dy)) as Hne.
    { intros [= H1 H2]. assert (dx = 0) as -> by lia.
      assert (dy = 0) as -> by lia. by rewrite !Z.add_0_r in Htb. }
    split; cbn [walls boxes player]; [set_solver|].
    exists (x + dx, y + dy). split_and!; [done|set_solver|set_solver].
  - split; [done|]. by exists (x, y).
Qed.

Lemma reachable_invariant level_data self :
  agent_cells level_data ≠ [] → reachable level_data self → invariant self.
Proof.
  intros Hag. induction 1 as [|self dx dy self' r _ IH Hm].
  - by apply init_invariant.
  - by eapply move_invariant.
Qed.

Lemma reachable_counters level_data self :
  reachable level_data self → 0 ≤ push_count self ≤ move_count self.
Proof.
  induction 1 as [|self dx dy self' r _ IH Hm].
  - destruct (init_counters level_data) as (-> & -> & _). lia.
  - apply move_counters in Hm. lia.
Qed.

(** Without an agent glyph no [move] returns: the board stays as built. *)
Lemma reachable_no_agent level_data self :
  agent_cells level_data = [] → reachable level_data self →
  self = init level_data.
Proof.
  intros Hag. induction 1 as [|self dx dy self' r _ IH Hm]; [done|].
  subst self. rewrite move_no_player in Hm by by apply init_no_player. done.
Qed.

Lemma reachable_has_player level_data self :
  agent_cells level_data ≠ [] → reachable level_data self →
  is_Some (player self).
Proof.
  intros Hag. destruct 1 as [|self dx dy self' r _ Hm].
  - by apply init_has_player.
  - by eapply move_keeps_player.
Qed.

End Reachable.

(** * The board engine: the claims *)

Section BoardClaims.
Import SokobanModel.

Implicit Types (self : SokobanModel.t) (agent pos : Z * Z) (dx dy : Z).
Implicit Types (level_data : list row).

(** The push of the first scenario, by evaluation. *)
Lemma framed_level_push :
  ∃ self', move (init framed_level) 1 0 = Ok (self', VALID).
Proof. eexists. vm_compute. reflexivity. Qed.

(** C1. On a board with an agent, for every delta [(dx, dy)] (the four unit
    directions among them), with [target = agent + delta] and
    [beyond = target + delta]: when [target] is in neither [walls] nor
    [boxes], [move] sets the agent to [target], adds one to [move_count],
    leaves [walls], [boxes], [goals] and [push_count] as they were and
    returns [VALID]; when [target] is in [boxes] and [beyond] is in neither
    set, [move] takes [target] out of [boxes], puts [beyond] in, sets the
    agent to [target], adds one to both counters and returns [VALID]. *)
Theorem C1_move_valid self agent dx dy :
  player self = Some agent →
  let target := (agent.1 + dx, agent.2 + dy) in
  let beyond := (target.1 + dx, target.2 + dy) in
  (target ∉ walls self → target ∉ boxes self →
   move self dx dy =
     Ok (mk (walls self) (boxes self) (goals self) (Some target)
            (move_count self + 1) (push_count self) (size self), VALID))
  ∧ (target ∈ boxes self → beyond ∉ walls self → beyond ∉ boxes self →
     move self dx dy =
       Ok (mk (walls self) (boxes self ∖ {[target]} ∪ {[beyond]})
              (goals self) (Some target)
              (move_count self + 1) (push_count self + 1) (size self),
           VALID)).
Proof.
  destruct agent as [x y]. intros Hp target beyond. split.
  - by apply move_step.
  - by apply move_push.
Qed.

Lemma C1_move_valid_witness :
  move (init framed_level) 1 0 =
    Ok (mk (walls (init framed_level)) {[(3, 1)]} {[(3, 1)]} (Some (2, 1))
           1 1 (5, 3)%nat, VALID).
Proof.
  assert (player (init framed_level) = Some (1, 1)) as Hp by reflexivity.
  destruct (C1_move_valid (init framed_level) (1, 1) 1 0 Hp) as [_ Hpush].
  rewrite Hpush by compute_done. f_equal.
Defined.

(** C2. On a board with an agent, [move] returns (it does not raise) one of
    the three responses; when the response is [INVALID_WALL] or
    [INVALID_BOX] the agent, the boxes and both counters are as before the
    call; and nothing looks at the rectangle of the level: a target outside
    of it that is in neither [walls] nor [boxes] is empty, so the agent
    steps out of the rectangle, and so does a box pushed towards such a
    cell. *)
Theorem C2_move_outcomes self agent dx dy :
  player self = Some agent →
  let target := (agent.1 + dx, agent.2 + dy) in
  let beyond := (target.1 + dx, target.2 + dy) in
  ∃ self' r,
    move self dx dy = Ok (self', r)
    ∧ (r = VALID ∨ r = INVALID_WALL ∨ r = INVALID_BOX)
    ∧ (r ≠ VALID →
       player self' = player self ∧ boxes self' = boxes self
       ∧ move_count self' = move_count self
       ∧ push_count self' = push_count self)
    ∧ (¬ in_rect self target → target ∉ walls self → target ∉ boxes self →
       r = VALID ∧ player self' = Some target ∧ ¬ in_rect self' target)
    ∧ (target ∈ boxes self → ¬ in_rect self beyond →
       beyond ∉ walls self → beyond ∉ boxes self →
       r = VALID ∧ beyond ∈ boxes self' ∧ ¬ in_rect self' beyond).
Proof.
  destruct agent as [x y]. intros Hp target beyond. subst target beyond.
  cbn [fst snd].
  destruct (move_cases self x y dx dy Hp)
    as [(Hnw & Hnb & E)|[(Hb & Hnw & Hnb & E)|[(Hb & Hocc & E)|(Hw & Hnb & E)]]];
    rewrite E; eexists _, _; (split; [reflexivity|]).
  - split_and!; [by left|done| |done]. by intros Hout _ _.
  - split_and!; [by left|done|done|].
    intros _ Hout _ _. split_and!; [done|set_solver|done].
  - split_and!; [by right; right|done|done|].
    intros _ _ ? ?. by destruct Hocc.
  - split_and!; [by right; left|done|done|done].
Qed.

Lemma C2_move_outcomes_witness :
  (∃ self', move (init lone_agent_level) 1 0 = Ok (self', VALID)
            ∧ player self' = Some (1, 0)
            ∧ (width self', height self') = (1, 1)%nat)
  ∧ (∃ self', move (init open_level) 1 0 = Ok (self', VALID)
              ∧ (2, 0) ∈ boxes self'
              ∧ (width self', height self') = (2, 1)%nat).
Proof.
  split.
  - assert (player (init lone_agent_level) = Some (0, 0)) as Hp
      by reflexivity.
    destruct (C2_move_outcomes (init lone_agent_level) (0, 0) 1 0 Hp)
      as (self' & r & Hm & _ & _ & Hout & _).
    destruct Hout as (-> & Hp' & _);
      [intros [[_ H] _]; vm_compute in H; discriminate|compute_done|compute_done|].
    exists self'. split_and!; [done|done|].
    apply move_inv in Hm as (? & ? & _ & [(_ & _ & _ & ->)|[(_ & _ & _ & _ & ->)|[_ ->]]]);
      reflexivity.
  - assert (player (init open_level) = Some (0, 0)) as Hp by reflexivity.
    destruct (C2_move_outcomes (init open_level) (0, 0) 1 0 Hp)
      as (self' & r & Hm & _ & _ & _ & Hout).
    destruct Hout as (-> & Hb' & _);
      [compute_done|intros [[_ H] _]; vm_compute in H; discriminate|compute_done
      |compute_done|].
    exists self'. split_and!; [done|done|].
    apply move_inv in Hm as (? & ? & _ & [(_ & _ & _ & ->)|[(_ & _ & _ & _ & ->)|[_ ->]]]);
      reflexivity.
Defined.

(** C3. Walls and boxes are disjoint and the agent is on neither, on every
    reachable board: on the board built from a level with at least one
    agent glyph, and after every call of [move] on a board where it holds,
    whatever the delta; such a call returns. *)
Theorem C3_invariant level_data :
  agent_cells level_data ≠ [] →
  invariant (init level_data)
  ∧ (∀ self dx dy, invariant self →
       ∃ self' r, move self dx dy = Ok (self', r) ∧ invariant self')
  ∧ (∀ self, reachable level_data self → invariant self).
Proof.
  intros Hag. split_and!.
  - by apply init_invariant.
  - intros self dx dy Hinv.
    destruct (move_returns self dx dy) as (self' & r & Hm).
    { destruct Hinv as [_ (agent & -> & _)]. by eexists. }
    exists self', r. split; [done|]. by eapply move_invariant.
  - intros self. by apply reachable_invariant.
Qed.

Lemma C3_invariant_witness :
  invariant (init framed_level)
  ∧ ∃ self', move (init framed_level) 1 0 = Ok (self', VALID)
             ∧ invariant self'.
Proof.
  assert (agent_cells framed_level ≠ []) as Hag by (vm_compute; discriminate).
  destruct (C3_invariant framed_level Hag) as (Hinit & Hmove & Hreach).
  split; [exact Hinit|].
  destruct (framed_level_push) as [self' Hm].
  exists self'. split; [exact Hm|].
  apply Hreach. eapply reach_move; [apply reach_init|exact Hm].
Defined.

(** The loop of [is_level_complete] runs to its end exactly when every
    element is a box, and returns [False] when it returns. *)
Lemma goals_loop_spec self (gs : list (Z * Z)) :
  (goals_loop self gs = None ∧ ∀ g, g ∈ gs → g ∈ boxes self)
  ∨ (goals_loop self gs = Some false ∧ ∃ g, g ∈ gs ∧ g ∉ boxes self).
Proof.
  induction gs as [|g gs IH]; simpl.
  - left. split; [done|]. by intros g ?%elem_of_nil.
  - destruct (decide (g ∉ boxes self)) as [Hg|Hg].
    + right. split; [done|]. exists g. split; [by left|done].
    + apply dec_stable in Hg. destruct IH as [[-> IH]|[-> (g' & ? & ?)]].
      * left. split; [done|]. by intros g' [->|?]%elem_of_cons; auto.
      * right. split; [done|]. exists g'. split; [by right|done].
Qed.

(** C4. [is_level_complete] returns [True] exactly when the set of goals is
    not empty and every goal is a box; with no goal it returns [False],
    wherever the boxes are. *)
Theorem C4_is_level_complete self :
  (is_level_complete self = true
   ↔ goals self ≠ ∅ ∧ goals self ⊆ boxes self)
  ∧ (goals self = ∅ → is_level_complete self = false).
Proof.
  assert (is_level_complete self = true
          ↔ goals self ≠ ∅ ∧ goals self ⊆ boxes self) as Hiff.
  { unfold is_level_complete.
    destruct (goals_loop_spec self (elements (goals self)))
      as [[-> Hall]|[-> (g & Hg & Hnb)]].
    - rewrite Nat.ltb_lt. split.
      + intros Hsz. split.
        * intros Hempty. rewrite Hempty, size_empty in Hsz. lia.
        * intros g Hg. apply Hall. by apply elem_of_elements.
      + intros [Hne _].
        destruct (decide (base.size (goals self) = 0%nat)) as [Hz|Hz]; [|lia].
        by apply size_empty_iff, leibniz_equiv in Hz.
    - split; [done|]. intros [_ Hsub]. apply elem_of_elements in Hg.
      by apply Hsub in Hg. }
  split; [done|]. intros Hempty.
  apply not_true_is_false. intros E. by apply Hiff in E as [? _].
Qed.

(** C7. On every reachable board [push_count ≤ move_count] and neither
    counter is negative; both are 0 on the board that the constructor
    builds; and no call of [move], on any board, lowers either of them. *)
Theorem C7_counters level_data self :
  reachable level_data self →
  0 ≤ push_count self ≤ move_count self
  ∧ move_count (init level_data) = 0 ∧ push_count (init level_data) = 0
  ∧ (∀ self0 dx dy self' r,
       move self0 dx dy = Ok (self', r) →
       move_count self0 ≤ move_count self'
       ∧ push_count self0 ≤ push_count self').
Proof.
  intros Hr. split_and!.
  - by eapply reachable_counters.
  - by eapply reachable_counters.
  - apply init_counters.
  - apply init_counters.
  - intros self0 dx dy self' r Hm. apply move_counters in Hm. lia.
Qed.

Lemma C7_counters_witness :
  ∃ self', move (init framed_level) 1 0 = Ok (self', VALID)
           ∧ 0 ≤ push_count self' ≤ move_count self'.
Proof.
  destruct framed_level_push as [self' Hm]. exists self'.
  split; [exact Hm|].
  apply (C7_counters framed_level self').
  eapply reach_move; [apply reach_init|exact Hm].
Defined.

(** C9. On a board with an agent, [symbol] answers by the priority list:
    a goal that is a box is box-on-goal; else a goal that is the agent is
    agent-on-goal; else a goal is a goal; else a box is a box; else the
    agent is the agent; else a wall is a wall; anything else is floor. *)
Theorem C9_symbol_priority self agent x y :
  player self = Some agent →
  symbol self x y = Ok (symbol_by_priority self agent (x, y)).
Proof.
  intros Hp. unfold symbol, symbol_by_priority, get_player. rewrite Hp.
  cbn [bind]. repeat case_decide; try done; tauto.
Qed.

Lemma C9_symbol_priority_witness :
  symbol (init framed_level) 2 1 = Ok BOX
  ∧ symbol (init framed_level) 1 1 = Ok PLAYER
  ∧ symbol (init framed_level) 3 1 = Ok GOAL
  ∧ symbol (init framed_level) 0 0 = Ok WALL.
Proof.
  assert (player (init framed_level) = Some (1, 1)) as Hp by reflexivity.
  rewrite !(C9_symbol_priority (init framed_level) (1, 1) _ _ Hp).
  vm_compute. done.
Defined.

End BoardClaims.

(** * The level parser: the claims *)

Section ParserClaims.
Import SokobanModel.

Implicit Types (self : SokobanModel.t) (pos : Z * Z) (dx dy : Z) (c : char).
Implicit Types (level_data : list row).

Lemma is_box_glyph_iff c :
  is_box_glyph c = true
  ↔ c = Symbol_value BOX ∨ c = Symbol_value BOX_ON_GOAL.
Proof.
  unfold is_box_glyph. by rewrite orb_true_iff, !N.eqb_eq.
Qed.

Lemma is_goal_glyph_iff c :
  is_goal_glyph c = true
  ↔ c = Symbol_value BOX_ON_GOAL ∨ c = Symbol_value PLAYER_ON_GOAL
    ∨ c = Symbol_value GOAL.
Proof.
  unfold is_goal_glyph. rewrite !orb_true_iff, !N.eqb_eq. tauto.
Qed.

Lemma is_agent_glyph_iff c :
  is_agent_glyph c = true
  ↔ c = Symbol_value PLAYER ∨ c = Symbol_value PLAYER_ON_GOAL.
Proof.
  unfold is_agent_glyph. by rewrite orb_true_iff, !N.eqb_eq.
Qed.

(** The sets of the constructed board at the position of a glyph. *)
Lemma init_at_glyph level_data (x y : nat) c :
  glyph_at level_data x y = Some c →
  let pos := (Z.of_nat x, Z.of_nat y) in
  (pos ∈ walls (init level_data) ↔ is_wall_glyph c = true)
  ∧ (pos ∈ boxes (init level_data) ↔ is_box_glyph c = true)
  ∧ (pos ∈ goals (init level_data) ↔ is_goal_glyph c = true).
Proof.
  intros Hg pos.
  assert ((pos, c) ∈ cells level_data) as Hin
    by (apply elem_of_cells; by exists x, y).
  destruct (init_sets level_data pos) as (-> & -> & ->).
  split_and!; (split; [|by exists c]); intros (c' & Hin' & Hc');
    by rewrite (cells_functional _ _ _ _ Hin Hin').
Qed.

(** An agent cell is the position of an agent glyph. *)
Lemma elem_of_agent_cells level_data pos :
  pos ∈ agent_cells level_data
  ↔ ∃ x y : nat, pos = (Z.of_nat x, Z.of_nat y)
      ∧ ∃ c, glyph_at level_data x y = Some c ∧ is_agent_glyph c = true.
Proof.
  unfold agent_cells. rewrite list_elem_of_fmap. split.
  - intros ([p c] & -> & [Hc Hin]%list_elem_of_filter).
    apply elem_of_cells in Hin as (x & y & -> & Hg). exists x, y.
    split; [done|]. by exists c.
  - intros (x & y & -> & c & Hg & Hc). exists ((Z.of_nat x, Z.of_nat y), c).
    split; [done|]. apply list_elem_of_filter. split; [done|].
    apply elem_of_cells. by exists x, y.
Qed.

(** C6, as the specification words it, fails on a row that starts with
    whitespace: in [indented_level] the first row is two characters long
    once trimmed at its end and has the wall glyph at column 1, while the
    stored width is 1 and the wall is at [(0, 0)], not at [(1, 0)]. *)
Lemma C6_counterexample :
  width_trailing_trim indented_level = 2%nat
  ∧ width (init indented_level) = 1%nat
  ∧ glyph_at_column indented_level 1 0 = Some (Symbol_value WALL)
  ∧ ((1, 0) ∉ walls (init indented_level))
  ∧ walls (init indented_level) = {[(0, 0)]}.
Proof. split_and!; [done|done|done|compute_done|compute_done]. Qed.

(** C6 (amended). A row that is a string is read after [strip()] has
    removed the whitespace at both of its ends; the glyph at index [x] of
    the row so read, for row index [y], is recorded at [(x, y)]: the
    position is a box exactly for the box and box-on-goal glyphs, a goal
    exactly for the box-on-goal, agent-on-goal and goal glyphs, a wall
    exactly for the wall glyph; the sets hold nothing but positions of such
    glyphs (floor and unknown glyphs add nothing); the agent is the
    position of the last agent or agent-on-goal glyph; the stored width is
    the length of the first row so read and the height the number of rows
    (both 0 for no row). *)
Theorem C6_parser level_data :
  (∀ (x y : nat) c,
     glyph_at level_data x y = Some c →
     let pos := (Z.of_nat x, Z.of_nat y) in
     (pos ∈ boxes (init level_data)
      ↔ c = Symbol_value BOX ∨ c = Symbol_value BOX_ON_GOAL)
     ∧ (pos ∈ goals (init level_data)
        ↔ c = Symbol_value BOX_ON_GOAL ∨ c = Symbol_value PLAYER_ON_GOAL
          ∨ c = Symbol_value GOAL)
     ∧ (pos ∈ walls (init level_data) ↔ c = Symbol_value WALL))
  ∧ (∀ pos,
       pos ∈ walls (init level_data) ∪ boxes (init level_data)
             ∪ goals (init level_data) →
       ∃ (x y : nat) c, pos = (Z.of_nat x, Z.of_nat y)
                        ∧ glyph_at level_data x y = Some c)
  ∧ player (init level_data) = last (agent_cells level_data)
  ∧ (∀ pos, pos ∈ agent_cells level_data
       ↔ ∃ (x y : nat) c, pos = (Z.of_nat x, Z.of_nat y)
           ∧ glyph_at level_data x y = Some c
           ∧ (c = Symbol_value PLAYER ∨ c = Symbol_value PLAYER_ON_GOAL))
  ∧ (width (init level_data), height (init level_data))
    = match level_data with
      | [] => (0, 0)%nat
      | r0 :: _ => (length (row_str r0), length level_data)
      end.
Proof.
  split_and!.
  - intros x y c Hg pos.
    destruct (init_at_glyph level_data x y c Hg) as (Hw & Hb & Hgl).
    fold pos in Hw, Hb, Hgl.
    rewrite Hw, Hb, Hgl, is_box_glyph_iff, is_goal_glyph_iff.
    unfold is_wall_glyph. by rewrite N.eqb_eq.
  - intros pos. rewrite !elem_of_union.
    destruct (init_sets level_data pos) as (-> & -> & ->).
    intros [[(c & Hin & _)|(c & Hin & _)]|(c & Hin & _)];
      apply elem_of_cells in Hin as (x & y & -> & Hg); by exists x, y, c.
  - apply init_player.
  - intros pos. rewrite elem_of_agent_cells.
    setoid_rewrite is_agent_glyph_iff. naive_solver.
  - unfold width, height. destruct (init_counters level_data) as (_ & _ & ->).
    by destruct level_data.
Qed.

(** C5, as the specification words it, fails: the constructor returns a
    board for no row at all, for a level without an agent glyph and for a
    level with two agent glyphs. *)
Lemma C5_counterexample :
  new [] = Ok (mk ∅ ∅ ∅ None 0 0 (0, 0)%nat)
  ∧ (agent_cells no_agent_level = []
     ∧ ∃ self, new no_agent_level = Ok self ∧ player self = None)
  ∧ (agent_cells two_agents_level = [(0, 0); (2, 0)]
     ∧ ∃ self, new two_agents_level = Ok self ∧ player self = Some (2, 0)).
Proof.
  split_and!; [done|done| |done|].
  - by eexists.
  - by eexists.
Qed.

(** C5 (amended). The constructor never raises: for every list of rows it
    returns a board. For no row the board is empty, of size 0 by 0, and has
    no agent; for a level without an agent glyph the board has no agent and
    [move] raises [AttributeError] whatever the delta; for a level with
    several agent glyphs the agent is the last of them in scan order. *)
Theorem C5_construction_returns level_data :
  ∃ self,
    new level_data = Ok self
    ∧ (level_data = [] → self = mk ∅ ∅ ∅ None 0 0 (0, 0)%nat)
    ∧ (agent_cells level_data = [] →
       player self = None
       ∧ ∀ dx dy, move self dx dy = Raise AttributeError)
    ∧ ((1 < length (agent_cells level_data))%nat →
       ∃ agent, player self = Some agent
                ∧ last (agent_cells level_data) = Some agent).
Proof.
  exists (init level_data). split_and!.
  - done.
  - by intros ->.
  - intros Hag. split; [by apply init_no_player|].
    intros dx dy. by apply move_no_player, init_no_player.
  - intros Hlen. rewrite init_player.
    destruct (last (agent_cells level_data)) as [agent|] eqn:E; [by eexists|].
    apply last_None in E. rewrite E in Hlen. simpl in Hlen. lia.
Qed.

(** C10. The constructor returns for every level; the agent of the board is
    the position of the last agent or agent-on-goal glyph in scan order
    (none when there is no such glyph), and every agent-on-goal glyph,
    the overwritten ones too, leaves its position in [goals]. On a
    reachable board [move] returns when the level has an agent glyph, and
    raises [AttributeError] (reading [self.player]) when it has none. *)
Theorem C10_last_agent_wins level_data self dx dy :
  reachable level_data self →
  new level_data = Ok (init level_data)
  ∧ player (init level_data) = last (agent_cells level_data)
  ∧ (∀ x y : nat,
       glyph_at level_data x y = Some (Symbol_value PLAYER_ON_GOAL) →
       (Z.of_nat x, Z.of_nat y) ∈ goals (init level_data))
  ∧ (agent_cells level_data ≠ [] →
     is_Some (player (init level_data))
     ∧ ∃ self' r, move self dx dy = Ok (self', r))
  ∧ (agent_cells level_data = [] → move self dx dy = Raise AttributeError)
  ∧ ((∃ e, move self dx dy = Raise e) ↔ agent_cells level_data = []).
Proof.
  intros Hr.
  assert (agent_cells level_data ≠ [] →
          ∃ self' r, move self dx dy = Ok (self', r)) as Hsome.
  { intros Hag. by eapply move_returns, reachable_has_player. }
  assert (agent_cells level_data = [] →
          move self dx dy = Raise AttributeError) as Hnone.
  { intros Hag. rewrite (reachable_no_agent _ _ Hag Hr).
    by apply move_no_player, init_no_player. }
  split_and!.
  - done.
  - apply init_player.
  - intros x y Hg. by apply (init_at_glyph _ _ _ _ Hg).
  - intros Hag. split; [by apply init_has_player|by apply Hsome].
  - done.
  - split.
    + intros [e He]. destruct (decide (agent_cells level_data = [])) as [|Hag];
        [done|]. destruct (Hsome Hag) as (? & ? & Hm). congruence.
    + intros Hag. exists AttributeError. by apply Hnone.
Qed.

Lemma C10_last_agent_wins_witness :
  player (init two_agents_level) = Some (2, 0)
  ∧ (0, 0) ∈ goals (init two_agents_level)
  ∧ ∃ self' r, move (init two_agents_level) (-1) 0 = Ok (self', r).
Proof.
  destruct (C10_last_agent_wins two_agents_level (init two_agents_level)
              (-1) 0 (reach_init _)) as (_ & Hp & Hg & Hm & _).
  split_and!.
  - rewrite Hp. reflexivity.
  - apply (Hg 0%nat 0%nat). reflexivity.
  - apply Hm. vm_compute. discriminate.
Defined.

End ParserClaims.

(** * The session controller: the score *)

Section Score.
Import Sokoban.

Implicit Types (self : Controller) (st : Loop) (m : Model).
Implicit Types (scr calls : list ViewCall).

Lemma sum_list_app (l1 l2 : list Z) :
  sum_list (l1 ++ l2) = sum_list l1 + sum_list l2.
Proof. unfold sum_list. induction l1 as [|z l1 IH]; simpl; lia. Qed.

Lemma announced_app scr1 scr2 :
  announced (scr1 ++ scr2) = announced scr1 ++ announced scr2.
Proof.
  induction scr1 as [|[| | |[]| |] scr1 IH]; simpl; by rewrite ?IH.
Qed.

Lemma announced_handle_move_response self r :
  announced (handle_move_response self r) = [].
Proof. unfold handle_move_response. by case_decide. Qed.

(** [load_next_level] adds the points of the board it leaves and moves on
    to the next level number. *)
Lemma load_next_level_score self self' has_next calls :
  load_next_level self = Ok (self', has_next, calls) →
  score self' = score self + level_score (model self)
  ∧ current_level_number self' = current_level_number self + 1
  ∧ announced calls = [].
Proof.
  destruct self as [number sc files m current]. unfold load_next_level.
  case_decide; [destruct (py_index files (number + 1)); simpl|];
    intros [= <- <- <-]; done.
Qed.

(** What a move does to the score, to the level number and to the
    announcements: with a valid move onto a complete board the points of
    that board are announced and added, and the level number goes up by
    one; otherwise nothing changes. *)
Lemma after_move_score st r st' :
  after_move st r = Ok st' →
  if decide (r = VALID ∧ is_level_complete (model (ctl st)) = true) then
    score (ctl st') = score (ctl st) + level_score (model (ctl st))
    ∧ current_level_number (ctl st') = current_level_number (ctl st) + 1
    ∧ announced (screen st')
      = announced (screen st) ++ [level_score (model (ctl st))]
  else
    score (ctl st') = score (ctl st)
    ∧ current_level_number (ctl st') = current_level_number (ctl st)
    ∧ announced (screen st') = announced (screen st).
Proof.
  destruct st as [self run fin scr]. unfold after_move. cbn [ctl screen].
  destruct (decide (r = VALID)) as [->|Hr].
  - destruct (is_level_complete (model self)) eqn:Hc.
    + rewrite decide_True by done.
      destruct (load_next_level self) as [[[self' has_next] calls]|e] eqn:E;
        [|done].
      apply load_next_level_score in E as (Hs & Hn & Hcalls). cbn [bind].
      destruct has_next; intros [= <-]; cbn [ctl screen];
        rewrite !announced_app, announced_handle_move_response, Hcalls;
        simpl; by rewrite !app_nil_r.
    + rewrite decide_False by (intros [_ ?]; done).
      intros [= <-]. cbn [ctl screen].
      rewrite !announced_app, announced_handle_move_response. simpl.
      by rewrite !app_nil_r.
  - rewrite decide_False by (intros [? _]; done).
    intros [= <-]. cbn [ctl screen].
    by rewrite !announced_app, announced_handle_move_response, app_nil_r.
Qed.

Lemma handle_event_score st event st' :
  handle_event st event = Ok st' →
  (∃ m, completes st event m
        ∧ score (ctl st') = score (ctl st) + level_score m
        ∧ current_level_number (ctl st') = current_level_number (ctl st) + 1
        ∧ announced (screen st') = announced (screen st) ++ [level_score m])
  ∨ ((∀ m, ¬ completes st event m)
     ∧ score (ctl st') = score (ctl st)
     ∧ current_level_number (ctl st') = current_level_number (ctl st)
     ∧ announced (screen st') = announced (screen st)).
Proof.
  destruct event as [|key|]; cbn [handle_event].
  - intros [= <-]. right. split; [|done]. by intros m (? & ? & ? & ? & _).
  - destruct (key_delta key) as [[dx dy]|] eqn:Hk.
    + destruct (move (model (ctl st)) dx dy) as [[m r]|e] eqn:Hm; [|done].
      cbn [bind]. intros Ha. apply after_move_score in Ha.
      cbn [ctl screen set_model model score current_level_number] in Ha.
      case_decide as Hc.
      * destruct Hc as [-> Hc]. left. exists m. split; [|done].
        by exists key, dx, dy.
      * right. split; [|done].
        intros m' (key' & dx' & dy' & [= <-] & Hk' & Hm' & Hc').
        rewrite Hk in Hk'. simplify_eq. rewrite Hm in Hm'. simplify_eq.
        by apply Hc.
    + intros Hst. right. split.
      * intros m (key' & dx' & dy' & [= <-] & Hk' & _). congruence.
      * destruct key; simplify_eq/=; try done.
        by rewrite announced_app, app_nil_r.
  - intros [= <-]. right. split; [|done]. by intros m (? & ? & ? & ? & _).
Qed.

Lemma balanced_trans st1 st2 st3 :
  balanced st1 st2 → balanced st2 st3 → balanced st1 st3.
Proof. unfold balanced. intros [? ?] [? ?]. split; congruence. Qed.

Lemma handle_event_balance st event st' :
  handle_event st event = Ok st' → balanced st st'.
Proof.
  unfold balanced.
  intros [(m & _ & -> & -> & ->)|(_ & -> & -> & ->)]%handle_event_score;
    [|done].
  split.
  - rewrite sum_list_app. unfold sum_list at 2. simpl. lia.
  - rewrite length_app. simpl. lia.
Qed.

Lemma handle_events_balance st events st' :
  handle_events st events = Ok st' → balanced st st'.
Proof.
  revert st. induction events as [|event events IH]; intros st; simpl.
  - by intros [= <-].
  - destruct (handle_event st event) as [st1|e] eqn:E; [|done]. cbn [bind].
    intros H. eapply balanced_trans; [|by apply IH].
    by apply (handle_event_balance _ _ _ E).
Qed.

Lemma while_running_balance st batches st' :
  while_running st batches = Ok st' → balanced st st'.
Proof.
  revert st. induction batches as [|events batches IH]; intros st; simpl.
  - by intros [= <-].
  - destruct (running st); [|by intros [= <-]].
    destruct (handle_events st events) as [st1|e] eqn:E; [|done]. cbn [bind].
    intros H. eapply balanced_trans; [|by apply IH].
    by apply (handle_events_balance _ _ _ E).
Qed.

Lemma game_loop_balance self batches st :
  game_loop self batches = Ok st →
  score (ctl st) = score self + sum_list (announced (screen st))
  ∧ current_level_number (ctl st)
    = current_level_number self + Z.of_nat (length (announced (screen st))).
Proof.
  unfold game_loop.
  destruct (while_running _ batches) as [st1|e] eqn:E; [|done]. cbn [bind].
  apply while_running_balance in E as [E1 E2]. cbn in E1, E2.
  intros [= <-]. destruct (game_completed st1); cbn [ctl screen].
  - rewrite announced_app. simpl. rewrite app_nil_r. lia.
  - lia.
Qed.

Lemma Controller_init_score files level0 n self calls :
  Controller_init files level0 n = Ok (self, calls) →
  score self = 0 ∧ current_level_number self = n.
Proof.
  unfold Controller_init.
  destruct (if decide _ then _ else _) as [f|e]; [|done].
  by intros [= <- <-].
Qed.

Lemma py_index_returns {A} (l : list A) (i : Z) :
  0 ≤ i < Z.of_nat (length l) → ∃ a, py_index l i = Ok a.
Proof.
  intros Hi. unfold py_index. cbv zeta.
  rewrite (decide_False (P := i < 0)) by lia. rewrite decide_True by done.
  destruct (lookup_lt_is_Some_2 l (Z.to_nat i)) as [a ->]; [lia|by exists a].
Qed.

Lemma load_next_level_returns self :
  0 ≤ current_level_number self →
  ∃ self' has_next calls, load_next_level self = Ok (self', has_next, calls).
Proof.
  destruct self as [number sc files m current]. cbn [current_level_number].
  intros Hn. unfold load_next_level. case_decide as Hlt; [|by eexists _, _, _].
  destruct (py_index_returns files (number + 1)) as [f ->]; [lia|].
  by eexists _, _, _.
Qed.

(** The session of two levels, by evaluation. *)
Lemma two_level_session_summary :
  session_summary two_level_files None 0 two_pushes
  = Some ([9990; 9990], true).
Proof. vm_compute. reflexivity. Qed.

Lemma two_level_session :
  ∃ self calls st,
    Controller_init two_level_files None 0 = Ok (self, calls)
    ∧ game_loop self two_pushes = Ok st
    ∧ announced (screen st) = [9990; 9990]
    ∧ game_completed st = true.
Proof.
  pose proof two_level_session_summary as H. unfold session_summary in H.
  destruct (Controller_init two_level_files None 0) as [[self calls]|];
    [|done].
  destruct (game_loop self two_pushes) as [st|] eqn:E; [|done].
  injection H as H1 H2. by exists self, calls, st.
Qed.

(** The accounting of the score. In a session that starts with
    [SokobanController(level_number=n)], the score at the end of
    [game_loop] is the sum of the points that the level-finished messages
    announce, one message for each step of the level number. An event of
    the loop adds points only when it is a direction key whose move is valid
    and leaves the board [m] complete, and then it adds
    [max(10000 - move_count * 10, 100)] for the move counter of [m], the
    points it announces; [load_next_level] adds that amount for the board it
    leaves. The points are 9500 for 50 moves and 100, the floor, for 1000
    moves. Nothing here bounds the number of these messages by the number
    of level files: see [one_level_session_outcome]. *)
Lemma level_score_accounting files level0 n self calls batches st :
  Controller_init files level0 n = Ok (self, calls) →
  game_loop self batches = Ok st →
  score (ctl st) = sum_list (announced (screen st))
  ∧ current_level_number (ctl st)
    = n + Z.of_nat (length (announced (screen st)))
  ∧ (∀ st0 event st1,
       handle_event st0 event = Ok st1 →
       (∃ m, completes st0 event m
             ∧ score (ctl st1)
               = score (ctl st0) + Z.max (10000 - move_count m * 10) 100
             ∧ announced (screen st1)
               = announced (screen st0)
                 ++ [Z.max (10000 - move_count m * 10) 100])
       ∨ ((∀ m, ¬ completes st0 event m)
          ∧ score (ctl st1) = score (ctl st0)
          ∧ announced (screen st1) = announced (screen st0)))
  ∧ (∀ self0,
       0 ≤ current_level_number self0 →
       ∃ self1 has_next calls1,
         load_next_level self0 = Ok (self1, has_next, calls1)
         ∧ score self1
           = score self0 + Z.max (10000 - move_count (model self0) * 10) 100)
  ∧ (∀ m, move_count m = 50 → level_score m = 9500)
  ∧ (∀ m, move_count m = 1000 → level_score m = 100).
Proof.
  intros Hinit Hloop.
  apply game_loop_balance in Hloop as [Hscore Hnumber].
  apply Controller_init_score in Hinit as [Hs0 Hn0].
  split_and!.
  - lia.
  - lia.
  - intros st0 event st1 H.
    apply handle_event_score in H
      as [(m & ? & ? & _ & ?)|(? & ? & _ & ?)]; [left|right]; eauto.
  - intros self0 Hn.
    destruct (load_next_level_returns self0 Hn) as (self1 & b & calls1 & E).
    exists self1, b, calls1. split; [done|].
    by apply load_next_level_score in E as [-> _].
  - intros m Hm. unfold level_score, get_move_count. rewrite Hm. done.
  - intros m Hm. unfold level_score, get_move_count. rewrite Hm. done.
Qed.

Lemma level_score_accounting_two_levels :
  ∃ self calls st,
    Controller_init two_level_files None 0 = Ok (self, calls)
    ∧ game_loop self two_pushes = Ok st
    ∧ announced (screen st) = [9990; 9990]
    ∧ score (ctl st) = 19980.
Proof.
  destruct two_level_session as (self & calls & st & Hinit & Hloop & Hann & _).
  exists self, calls, st. split_and!; [done|done|done|].
  destruct (level_score_accounting two_level_files None 0 self calls
              two_pushes st Hinit Hloop) as [-> _].
  rewrite Hann. reflexivity.
Defined.

(** The session of a single level, by evaluation: with the completing push
    alone, and with a step back that follows it in the same batch of
    events. *)
Lemma one_level_session_outcome :
  session_outcome [framed_level] None 0 [[KEYDOWN K_RIGHT]]
  = Some (9990, 1, 1%nat, [9990], false, true)
  ∧ session_outcome [framed_level] None 0 push_then_step_back
    = Some (19970, 2, 1%nat, [9990; 9980], false, true).
Proof. split; vm_compute; reflexivity. Qed.

(** C8. The total score is not always the sum of the scores of the
    completed levels. With [framed_level] as the only level file, the push
    to the right completes the level: 9990 points, [running] is set to
    false and the board stays in place, there being no next level. When a
    step to the left follows in the same batch of events, the [for] loop
    handles it as well: the move is valid, the board is still complete, and
    [load_next_level] runs a second time. The session ends with the score
    19970, two level scores for one level file, and the level number 2. *)
Theorem C8_last_level_scored_twice :
  ∃ self calls st1 st,
    Controller_init [framed_level] None 0 = Ok (self, calls)
    ∧ game_loop self [[KEYDOWN K_RIGHT]] = Ok st1
    ∧ (score (ctl st1) = 9990 ∧ announced (screen st1) = [9990]
       ∧ running st1 = false ∧ game_completed st1 = true)
    ∧ game_loop self push_then_step_back = Ok st
    ∧ length (level_files (ctl st)) = 1%nat
    ∧ announced (screen st) = [9990; 9980]
    ∧ score (ctl st) = 19970
    ∧ current_level_number (ctl st) = 2
    ∧ game_completed st = true.
Proof.
  destruct one_level_session_outcome as [H1 H2].
  unfold session_outcome in H1, H2.
  destruct (Controller_init [framed_level] None 0) as [[self calls]|];
    [|done].
  destruct (game_loop self [[KEYDOWN K_RIGHT]]) as [st1|] eqn:E1; [|done].
  destruct (game_loop self push_then_step_back) as [st|] eqn:E2; [|done].
  injection H1 as ? ? ? ? ? ?. injection H2 as ? ? ? ? ? ?.
  exists self, calls, st1, st. split_and!; done.
Qed.

End Score.

(** * The two boards agree

    The board of sokoban.py is the board of sokoban2.py without the push
    counter: construction, [move] and [is_level_complete] commute with
    leaving the counter out, so what is proved of the one holds of the
    other. *)

Section TwoBoards.

Implicit Types (m : SokobanModel.t) (level_data : list row).

Lemma foldl_commute {S1 S2 B} (h : S1 → S2) (f1 : S1 → B → S1)
    (f2 : S2 → B → S2) (s : S1) (bs : list B) :
  (∀ s b, f2 (h s) b = h (f1 s b)) →
  foldl f2 (h s) bs = h (foldl f1 s bs).
Proof.
  intros H. revert s. induction bs as [|b bs IH]; intros s; simpl; [done|].
  by rewrite H, IH.
Qed.

Lemma forget_place m pos c :
  Sokoban.place (forget_push_count m) pos c
  = forget_push_count (SokobanModel.place m pos c).
Proof.
  destruct m as [w b g pl mc pc sz].
  unfold Sokoban.place, SokobanModel.place, forget_push_count.
  cbn [Symbol_value].
  destruct (N.eqb_spec c 36) as [->|?]; [reflexivity|].
  destruct (N.eqb_spec c 42) as [->|?]; [reflexivity|].
  destruct (N.eqb_spec c 64) as [->|?]; [reflexivity|].
  destruct (N.eqb_spec c 43) as [->|?]; [reflexivity|].
  destruct (N.eqb_spec c 46) as [->|?]; [reflexivity|].
  destruct (N.eqb_spec c 35) as [->|?]; reflexivity.
Qed.

Lemma forget_init level_data :
  Sokoban.Model_init level_data
  = forget_push_count (SokobanModel.init level_data).
Proof.
  unfold Sokoban.Model_init, SokobanModel.init, SokobanModel.scan.
  apply (foldl_commute forget_push_count _ _
           (SokobanModel.mk ∅ ∅ ∅ None 0 0
              (SokobanModel.initial_size level_data))).
  intros s [y r]. unfold SokobanModel.scan_row.
  apply foldl_commute. intros s' [x c]. apply forget_place.
Qed.

Lemma forget_move m dx dy :
  Sokoban.move (forget_push_count m) dx dy
  = match SokobanModel.move m dx dy with
    | Ok (m', r) => Ok (forget_push_count m', r)
    | Raise e => Raise e
    end.
Proof.
  destruct m as [w b g [[x y]|] mc pc sz]; [|done].
  unfold Sokoban.move, SokobanModel.move, SokobanModel.get_player,
    Sokoban.is_empty, SokobanModel.is_empty, SokobanModel.set_remove,
    forget_push_count.
  cbn [bind Sokoban.player Sokoban.walls Sokoban.boxes SokobanModel.player
       SokobanModel.walls SokobanModel.boxes].
  destruct (decide ((x + dx, y + dy) ∈ w));
    destruct (decide ((x + dx, y + dy) ∈ b));
    destruct (decide ((x + dx + dx, y + dy + dy) ∈ w));
    destruct (decide ((x + dx + dx, y + dy + dy) ∈ b)); reflexivity.
Qed.

Lemma forget_is_level_complete m :
  Sokoban.is_level_complete (forget_push_count m)
  = SokobanModel.is_level_complete m.
Proof.
  unfold Sokoban.is_level_complete, SokobanModel.is_level_complete.
  cbn [forget_push_count Sokoban.goals Sokoban.boxes].
  induction (elements (SokobanModel.goals m)) as [|g gs IH]; simpl; [done|].
  by case_decide.
Qed.

End TwoBoards.

(** * The scenarios of the specification, by evaluation *)

Section Scenarios.
Import SokobanModel.

(** A line read from a file ends with a line feed, which [strip] removes. *)
Example strip_line :
  row_str (RStr (str_of "#@$.#" ++ [10%N])) = str_of "#@$.#".
Proof. reflexivity. Qed.

(** Scenario 1: the push to the right puts the box on the goal. *)
Example scenario_push_completes :
  match move (init framed_level) 1 0 with
  | Ok (self, r) =>
      (r, player self, is_level_complete self, move_count self,
       push_count self) = (VALID, Some (2, 1), true, 1, 1)
  | Raise _ => False
  end.
Proof. vm_compute. reflexivity. Qed.

(** Scenario 2: to the left there is a wall. *)
Example scenario_wall :
  match move (init framed_level) (-1) 0 with
  | Ok (self, r) =>
      (r, player self, move_count self, push_count self)
      = (INVALID_WALL, Some (1, 1), 0, 0)
  | Raise _ => False
  end.
Proof. vm_compute. reflexivity. Qed.

(** Scenario 3: a box behind the box blocks the push. *)
Example scenario_two_boxes :
  match move (init (level_of ["@$$.#"]%string)) 1 0 with
  | Ok (self, r) =>
      (r, player self, elements (boxes self), move_count self,
       push_count self)
      = (INVALID_BOX, Some (0, 0), elements ({[(1, 0); (2, 0)]} : gset _),
         0, 0)
  | Raise _ => False
  end.
Proof. vm_compute. reflexivity. Qed.

(** Scenario 6: two levels, each completed by one push; the level number
    ends at 2 and the game is complete. *)
Example scenario_two_levels :
  session_summary two_level_files None 0 two_pushes
  = Some ([9990; 9990], true).
Proof. vm_compute. reflexivity. Qed.

(** The [for] loop over the events of one call of [pygame.event.get()] does
    not stop when [running] becomes false: a key that follows the last
    completion in the same list is still handled, on the board that was
    left in place, and is announced and added like any other. *)
Example events_after_last_level :
  session_summary [framed_level] None 0
    [[Sokoban.KEYDOWN Sokoban.K_RIGHT; Sokoban.KEYDOWN Sokoban.K_LEFT]]
  = Some ([9990; 9980], true).
Proof. vm_compute. reflexivity. Qed.

End Scenarios.

(** * More about the board of sokoban2.py *)

Section BoardExtras.
Import SokobanModel.

Implicit Types (self : SokobanModel.t) (agent pos : Z * Z) (dx dy : Z).
Implicit Types (level_data : list row).

(** X1. A call of [move] that returns leaves the walls, the goals and the
    stored size as they were, and the number of boxes too: a box is never
    created, lost or put on another box. *)
Theorem X1_move_conserves self dx dy self' r :
  move self dx dy = Ok (self', r) →
  walls self' = walls self ∧ goals self' = goals self
  ∧ size self' = size self
  ∧ base.size (boxes self') = base.size (boxes self).
Proof.
  intros (x & y & Hp & [(_ & _ & _ & ->)|[(_ & Hb & _ & Hnb & ->)|[_ ->]]])%move_inv;
    try done.
  split_and!; try done. cbn [boxes].
  rewrite size_union by set_solver. rewrite size_singleton.
  assert (base.size (boxes self)
          = S (base.size (boxes self ∖ {[(x + dx, y + dy)]}))) as ->; [|lia].
  transitivity (base.size ({[(x + dx, y + dy)]} ∪ boxes self)).
  - f_equal. set_solver.
  - by rewrite size_union_alt, size_singleton.
Qed.

Lemma X1_move_conserves_witness :
  ∃ self', move (init framed_level) 1 0 = Ok (self', VALID)
           ∧ base.size (boxes self') = base.size (boxes (init framed_level))
           ∧ walls self' = walls (init framed_level).
Proof.
  destruct framed_level_push as [self' Hm]. exists self'.
  destruct (X1_move_conserves _ _ _ _ _ Hm) as (Hw & _ & _ & Hb).
  by split_and!.
Defined.

(** X2. On a board where the invariant holds, a valid move can be walked
    back: the move by the opposite delta is valid too, it is a plain step
    (the boxes stay where the first move left them) and the agent is back
    where it was, two moves later. *)
Theorem X2_step_back self dx dy self' :
  invariant self →
  move self dx dy = Ok (self', VALID) →
  ∃ self'',
    move self' (- dx) (- dy) = Ok (self'', VALID)
    ∧ player self'' = player self
    ∧ boxes self'' = boxes self'
    ∧ move_count self'' = move_count self + 2
    ∧ push_count self'' = push_count self'.
Proof.
  intros [Hd (agent & Hag & Hw & Hb)] (x & y & Hp & Hcases)%move_inv.
  rewrite Hp in Hag. injection Hag as <-.
  assert (∀ a d : Z, a + d + - d = a) as Hback by (intros; lia).
  destruct Hcases as [(_ & Hnw & Hnb & ->)|[(_ & Htb & Hnw & Hnb & ->)|[? _]]];
    [| |done].
  - eexists. split.
    + apply move_step; cbn [player walls boxes]; [done| |];
        by rewrite !Hback.
    + cbn. rewrite !Hback. split_and!; [done|done|lia|done].
  - assert ((x, y) ≠ (x + dx + dx, y + dy + dy)) as Hne.
    { intros [= H1 H2]. assert (dx = 0) as -> by lia.
      assert (dy = 0) as -> by lia. by rewrite !Z.add_0_r in Htb. }
    eexists. split.
    + apply move_step; cbn [player walls boxes]; [done| |];
        rewrite !Hback; [done|set_solver].
    + cbn. rewrite !Hback. split_and!; [done|done|lia|done].
Qed.

Lemma X2_step_back_witness :
  ∃ self' self'',
    move (init framed_level) 1 0 = Ok (self', VALID)
    ∧ move self' (-1) 0 = Ok (self'', VALID)
    ∧ player self'' = Some (1, 1)
    ∧ boxes self'' = boxes self'.
Proof.
  destruct framed_level_push as [self' Hm].
  assert (invariant (init framed_level)) as Hinv.
  { apply init_invariant. vm_compute. discriminate. }
  destruct (X2_step_back _ 1 0 _ Hinv Hm) as (self'' & Hm' & Hp & Hb & _).
  exists self', self''. split_and!; [done|done| |done].
  rewrite Hp. reflexivity.
Defined.

Lemma count_valid_cons r rs :
  count_valid (r :: rs)
  = (if decide (r = VALID) then 1 else 0) + count_valid rs.
Proof.
  unfold count_valid. case_decide.
  - rewrite filter_cons_True by done. simpl length. lia.
  - by rewrite filter_cons_False by done.
Qed.

Lemma count_valid_nonneg rs : 0 ≤ count_valid rs.
Proof. unfold count_valid. lia. Qed.

(** X3. On a board with an agent a series of calls of [move] never raises
    and answers every call; at its end [move_count] has grown by the number
    of [VALID] responses, [push_count] by no more than that, and when no
    response is [VALID] the board is the one the series started from. *)
Theorem X3_play_counts self (deltas : list (Z * Z)) :
  is_Some (player self) →
  ∃ self' rs,
    play self deltas = Ok (self', rs)
    ∧ length rs = length deltas
    ∧ move_count self' = move_count self + count_valid rs
    ∧ push_count self ≤ push_count self' ≤ push_count self + count_valid rs
    ∧ (count_valid rs = 0 → self' = self).
Proof.
  revert self. induction deltas as [|[dx dy] deltas IH]; intros self Hp.
  - exists self, []. simpl. unfold count_valid. simpl.
    split_and!; try done; lia.
  - destruct (move_returns self dx dy Hp) as (self1 & r & Hm).
    destruct (IH self1) as (self' & rs & Hplay & Hlen & Hmc & Hpc & Hsame);
      [by eapply move_keeps_player|].
    exists self', (r :: rs). cbn [play]. rewrite Hm. cbn [bind].
    rewrite Hplay. cbn [bind]. rewrite count_valid_cons.
    pose proof (count_valid_nonneg rs).
    apply move_inv in Hm
      as (x & y & _ & [(-> & _ & _ & ->)|[(-> & _ & _ & _ & ->)|[Hr ->]]]);
      cbn [move_count push_count] in *;
      rewrite ?decide_True by done; rewrite ?(decide_False _ _ Hr);
      (split_and!; [done|simpl; lia|lia|lia|lia|]); intros Hz;
      try lia.
    apply Hsame. lia.
Qed.

Lemma X3_play_counts_witness :
  ∃ self',
    play (init framed_level) [(-1, 0); (1, 0); (1, 0)]
    = Ok (self', [INVALID_WALL; VALID; INVALID_BOX])
    ∧ move_count self' = 1.
Proof.
  assert (is_Some (player (init framed_level))) as Hp by (by eexists).
  destruct (X3_play_counts (init framed_level) [(-1, 0); (1, 0); (1, 0)] Hp)
    as (self' & rs & Hplay & _ & Hmc & _).
  assert (∃ self1, play (init framed_level) [(-1, 0); (1, 0); (1, 0)]
                   = Ok (self1, [INVALID_WALL; VALID; INVALID_BOX]))
    as [self1 Hrun] by (eexists; vm_compute; reflexivity).
  rewrite Hrun in Hplay. injection Hplay as -> <-.
  exists self'. split; [done|]. rewrite Hmc. reflexivity.
Defined.

(** X5. [symbol] raises exactly when the board has no agent and the
    position is not a box (a box is recognised before [self.player] is
    read), and what it raises is [AttributeError]. *)
Theorem X5_symbol_raises self x y :
  ((∃ e, symbol self x y = Raise e)
   ↔ player self = None ∧ (x, y) ∉ boxes self)
  ∧ (∀ e, symbol self x y = Raise e → e = AttributeError).
Proof.
  unfold symbol, get_player.
  destruct (player self) as [agent|]; cbn [bind];
    repeat case_decide; split; try split;
    try (intros [e ?]; done); try (intros [? ?]; done);
    try (intros e [= <-]; done); try (intros e ?; done);
    try (intros _; by exists AttributeError).
Qed.

(** The sets of a fresh board and its agent at the position of a glyph,
    for a level with one agent glyph. *)
Lemma fresh_board_at_glyph level_data agent (x y : nat) c :
  agent_cells level_data = [agent] →
  glyph_at level_data x y = Some c →
  let pos := (Z.of_nat x, Z.of_nat y) in
  player (init level_data) = Some agent
  ∧ (pos ∈ walls (init level_data) ↔ is_wall_glyph c = true)
  ∧ (pos ∈ boxes (init level_data) ↔ is_box_glyph c = true)
  ∧ (pos ∈ goals (init level_data) ↔ is_goal_glyph c = true)
  ∧ (pos = agent ↔ is_agent_glyph c = true).
Proof.
  intros Hag Hg pos.
  destruct (init_at_glyph level_data x y c Hg) as (Hw & Hb & Hgl).
  split_and!; try done.
  - by rewrite init_player, Hag.
  - rewrite <- (list_elem_of_singleton pos agent), <- Hag,
      elem_of_agent_cells.
    split.
    + intros (x' & y' & Heq & c' & Hg' & Hc').
      assert (x' = x ∧ y' = y) as [-> ->]
        by (unfold pos in Heq; split; injection Heq; lia).
      congruence.
    + intros Hc. exists x, y. split; [done|]. by exists c.
Qed.

(** A position without a glyph is in no set of the fresh board and is not
    the agent. *)
Lemma fresh_board_off_text level_data (x y : nat) :
  glyph_at level_data x y = None →
  let pos := (Z.of_nat x, Z.of_nat y) in
  (pos ∉ walls (init level_data)) ∧ (pos ∉ boxes (init level_data))
  ∧ (pos ∉ goals (init level_data))
  ∧ player (init level_data) ≠ Some pos.
Proof.
  intros Hg pos.
  assert (∀ c, (pos, c) ∉ cells level_data) as Hno.
  { intros c (x' & y' & Heq & Hg')%elem_of_cells.
    assert (x' = x ∧ y' = y) as [-> ->]
      by (unfold pos in Heq; split; injection Heq; lia).
    congruence. }
  destruct (init_sets level_data pos) as (-> & -> & ->).
  split_and!; try (intros (c & Hin & _); by apply (Hno c)).
  intros (c & Hin & _)%init_player_glyph. by apply (Hno c).
Qed.

(** X4. Parsing and then asking for the symbol of a cell gives back the
    text: on the board built from a level with exactly one agent glyph, the
    cell of a glyph that is the value of a [Symbol] shows that symbol; the
    cell of any other glyph, and a position of the grid that has no glyph,
    show the floor. *)
Theorem X4_symbol_of_fresh_board level_data agent (x y : nat) :
  agent_cells level_data = [agent] →
  (∀ s, glyph_at level_data x y = Some (Symbol_value s) →
        symbol (init level_data) (Z.of_nat x) (Z.of_nat y) = Ok s)
  ∧ (∀ c, glyph_at level_data x y = Some c → (∀ s, c ≠ Symbol_value s) →
          symbol (init level_data) (Z.of_nat x) (Z.of_nat y) = Ok FLOOR)
  ∧ (glyph_at level_data x y = None →
     symbol (init level_data) (Z.of_nat x) (Z.of_nat y) = Ok FLOOR).
Proof.
  intros Hag. split_and!.
  - intros s Hg.
    destruct (fresh_board_at_glyph _ _ _ _ _ Hag Hg)
      as (Hp & Hw & Hb & Hgl & Ha).
    unfold symbol, get_player. rewrite Hp. cbn [bind].
    destruct s;
      cbv [is_wall_glyph is_box_glyph is_goal_glyph is_agent_glyph
           Symbol_value N.eqb Pos.eqb orb] in Hw, Hb, Hgl, Ha;
      repeat case_decide; try done; exfalso;
      intuition congruence.
  - intros c Hg Hc.
    destruct (fresh_board_at_glyph _ _ _ _ _ Hag Hg)
      as (Hp & Hw & Hb & Hgl & Ha).
    assert (is_wall_glyph c = false ∧ is_box_glyph c = false
            ∧ is_goal_glyph c = false ∧ is_agent_glyph c = false)
      as (Ew & Eb & Eg & Ea).
    { unfold is_wall_glyph, is_box_glyph, is_goal_glyph, is_agent_glyph.
      pose proof (Hc BOX). pose proof (Hc BOX_ON_GOAL). pose proof (Hc PLAYER).
      pose proof (Hc PLAYER_ON_GOAL). pose proof (Hc GOAL).
      pose proof (Hc WALL).
      by rewrite !(proj2 (N.eqb_neq _ _)) by done. }
    rewrite Ew in Hw. rewrite Eb in Hb. rewrite Eg in Hgl. rewrite Ea in Ha.
    unfold symbol, get_player. rewrite Hp. cbn [bind].
    repeat case_decide; try done; exfalso; intuition congruence.
  - intros Hg.
    destruct (fresh_board_off_text _ _ _ Hg) as (Hw & Hb & Hgl & Ha).
    unfold symbol, get_player. rewrite init_player, Hag. cbn [bind last].
    rewrite init_player, Hag in Ha. cbn [last] in Ha.
    repeat case_decide; try done; exfalso; congruence.
Qed.

Lemma X4_symbol_of_fresh_board_witness :
  symbol (init framed_level) 1 1 = Ok PLAYER
  ∧ symbol (init framed_level) 2 1 = Ok BOX
  ∧ symbol (init framed_level) 7 1 = Ok FLOOR.
Proof.
  assert (agent_cells framed_level = [(1, 1)]) as Hag by reflexivity.
  destruct (X4_symbol_of_fresh_board framed_level (1, 1) 1 1 Hag)
    as (H1 & _ & _).
  destruct (X4_symbol_of_fresh_board framed_level (1, 1) 2 1 Hag)
    as (H2 & _ & _).
  destruct (X4_symbol_of_fresh_board framed_level (1, 1) 7 1 Hag)
    as (_ & _ & H3).
  split_and!.
  - apply (H1 PLAYER). reflexivity.
  - apply (H2 BOX). reflexivity.
  - apply H3. reflexivity.
Defined.

(** [is_level_complete] in terms of the sets. *)
Lemma is_level_complete_iff self :
  is_level_complete self = true
  ↔ goals self ≠ ∅ ∧ goals self ⊆ boxes self.
Proof.
  unfold is_level_complete.
  destruct (goals_loop_spec self (elements (goals self)))
    as [[-> Hall]|[-> (g & Hg & Hnb)]].
  - rewrite Nat.ltb_lt. split.
    + intros Hsz. split.
      * intros Hempty. rewrite Hempty, size_empty in Hsz. lia.
      * intros g Hg. apply Hall. by apply elem_of_elements.
    + intros [Hne _].
      destruct (decide (base.size (goals self) = 0%nat)) as [Hz|Hz]; [|lia].
      by apply size_empty_iff, leibniz_equiv in Hz.
  - split; [done|]. intros [_ Hsub]. apply elem_of_elements in Hg.
    by apply Hsub in Hg.
Qed.

(** X6. A level is complete as soon as it is built exactly when its text
    has a box-on-goal glyph and neither a goal glyph nor an agent-on-goal
    glyph. *)
Theorem X6_fresh_level_complete level_data :
  is_level_complete (init level_data) = true
  ↔ (∃ x y : nat,
       glyph_at level_data x y = Some (Symbol_value BOX_ON_GOAL))
    ∧ (∀ (x y : nat) c,
         glyph_at level_data x y = Some c →
         c ≠ Symbol_value GOAL ∧ c ≠ Symbol_value PLAYER_ON_GOAL).
Proof.
  rewrite is_level_complete_iff. split.
  - intros [Hne Hsub]. split.
    + apply set_choose_L in Hne as [pos Hpos].
      pose proof (Hsub _ Hpos) as Hbox.
      destruct (init_sets level_data pos) as (_ & Hb & Hg).
      apply Hg in Hpos as (c & Hin & Hc). apply Hb in Hbox as (c' & Hin' & Hc').
      assert (c' = c) as -> by eauto using cells_functional.
      apply elem_of_cells in Hin as (x & y & -> & Hgl). exists x, y.
      rewrite Hgl. f_equal.
      apply is_goal_glyph_iff in Hc. apply is_box_glyph_iff in Hc'.
      destruct Hc as [->| [->| ->]]; [done| |];
        by destruct Hc' as [?|?].
    + intros x y c Hgl.
      destruct (init_at_glyph _ _ _ _ Hgl) as (_ & Hb & Hg).
      split; intros ->.
      * assert (is_box_glyph (Symbol_value GOAL) = true) as Hc; [|done].
        apply Hb, Hsub, Hg. done.
      * assert (is_box_glyph (Symbol_value PLAYER_ON_GOAL) = true) as Hc;
          [|done].
        apply Hb, Hsub, Hg. done.
  - intros [(x & y & Hgl) Hnone]. split.
    + destruct (init_at_glyph _ _ _ _ Hgl) as (_ & _ & Hg).
      intros Hempty. rewrite Hempty in Hg.
      by apply (not_elem_of_empty (C := gset (Z * Z)) (Z.of_nat x, Z.of_nat y)), Hg.
    + intros pos Hpos.
      destruct (init_sets level_data pos) as (_ & Hb & Hg).
      apply Hg in Hpos as (c & Hin & Hc). apply Hb. exists c.
      split; [done|].
      apply elem_of_cells in Hin as (x' & y' & -> & Hgl').
      destruct (Hnone _ _ _ Hgl') as [H1 H2].
      apply is_goal_glyph_iff in Hc as [->| [->| ->]]; done.
Qed.

End BoardExtras.

(** * More about the session of sokoban.py *)

Section Session.
Import Sokoban.

Implicit Types (self : Controller) (st : Loop) (m : Model).
Implicit Types (files : list (list row)) (level_data : list row).

(** ** The board of sokoban.py through the board of sokoban2.py *)

Lemma forget_push_count_surj m : ∃ bd, m = forget_push_count bd.
Proof.
  destruct m as [w b g pl mc sz]. by exists (SokobanModel.mk w b g pl mc 0 sz).
Qed.

Lemma move_forget_inv bd dx dy m r :
  move (forget_push_count bd) dx dy = Ok (m, r) →
  ∃ bd', SokobanModel.move bd dx dy = Ok (bd', r)
         ∧ m = forget_push_count bd'.
Proof.
  rewrite forget_move.
  destruct (SokobanModel.move bd dx dy) as [[bd' r']|e]; [|done].
  intros [= <- <-]. by exists bd'.
Qed.

Lemma Model_init_move_count level_data :
  move_count (Model_init level_data) = 0.
Proof. rewrite forget_init. apply init_counters. Qed.

(** [l[i]] returns an element of [l], the one at [i] when [i] is not
    negative. *)
Lemma py_index_inv {A} (l : list A) (i : Z) (a : A) :
  py_index l i = Ok a →
  a ∈ l ∧ (0 ≤ i → l !! Z.to_nat i = Some a).
Proof.
  unfold py_index. cbv zeta. destruct (decide (i < 0)) as [Hneg|Hneg].
  - case_decide; [|done].
    destruct (l !! Z.to_nat (i + Z.of_nat (length l))) as [a'|] eqn:E;
      [|done].
    intros [= <-]. split; [by eapply list_elem_of_lookup_2|lia].
  - case_decide; [|done].
    destruct (l !! Z.to_nat i) as [a'|] eqn:E; [|done].
    intros [= <-]. split; [by eapply list_elem_of_lookup_2|done].
Qed.

(** ** What [load_next_level] and an event of the loop do *)

Lemma load_next_level_inv self self' has_next calls :
  load_next_level self = Ok (self', has_next, calls) →
  level_files self' = level_files self
  ∧ current_level_number self' = current_level_number self + 1
  ∧ score self' = score self + level_score (model self)
  ∧ ((has_next = true
      ∧ current_level_number self' < Z.of_nat (length (level_files self))
      ∧ py_index (level_files self) (current_level_number self')
        = Ok (current_level self')
      ∧ model self' = Model_init (current_level self'))
     ∨ (has_next = false
        ∧ Z.of_nat (length (level_files self)) ≤ current_level_number self'
        ∧ model self' = model self
        ∧ current_level self' = current_level self)).
Proof.
  destruct self as [number sc files m current]. unfold load_next_level.
  case_decide as Hlt.
  - destruct (py_index files (number + 1)) as [f|e] eqn:E; [|done].
    cbn [bind]. intros [= <- <- <-]. cbn. split_and!; try done. by left.
  - intros [= <- <- <-]. cbn. split_and!; try done. right.
    split_and!; try done. lia.
Qed.

(** The four things an event of the loop can do: nothing to the
    controller; a restart; a move that completes no level; a move that
    completes one. *)
Lemma handle_event_inv st event st' :
  handle_event st event = Ok st' →
  (ctl st' = ctl st ∧ game_completed st' = game_completed st
   ∧ (running st' = running st ∨ running st' = false))
  ∨ (event = KEYDOWN K_r
     ∧ ctl st' = set_model (ctl st) (Model_init (current_level (ctl st)))
     ∧ game_completed st' = game_completed st ∧ running st' = running st)
  ∨ (∃ key dx dy m r,
       event = KEYDOWN key ∧ key_delta key = Some (dx, dy)
       ∧ move (model (ctl st)) dx dy = Ok (m, r)
       ∧ ¬ (r = VALID ∧ is_level_complete m = true)
       ∧ ctl st' = set_model (ctl st) m
       ∧ game_completed st' = game_completed st
       ∧ running st' = running st)
  ∨ (∃ key dx dy m has_next calls,
       event = KEYDOWN key ∧ key_delta key = Some (dx, dy)
       ∧ move (model (ctl st)) dx dy = Ok (m, VALID)
       ∧ is_level_complete m = true
       ∧ load_next_level (set_model (ctl st) m)
         = Ok (ctl st', has_next, calls)
       ∧ ((has_next = true ∧ game_completed st' = game_completed st
           ∧ running st' = running st)
          ∨ (has_next = false ∧ game_completed st' = true
             ∧ running st' = false))).
Proof.
  destruct event as [|key|]; cbn [handle_event].
  - intros [= <-]. left. cbn. auto.
  - destruct (key_delta key) as [[dx dy]|] eqn:Hk.
    + destruct (move (model (ctl st)) dx dy) as [[m r]|e] eqn:Hm; [|done].
      cbn [bind].
      assert (model (set_model (ctl st) m) = m) as Hmodel by done.
      set (self1 := set_model (ctl st) m) in *.
      unfold after_move. cbv beta iota zeta. rewrite Hmodel.
      destruct (decide (r = VALID)) as [->|Hr].
      * destruct (is_level_complete m) eqn:Hc.
        -- destruct (load_next_level self1)
             as [[[self' has_next] calls]|e] eqn:E; [|done].
           cbn [bind]. subst self1.
           destruct has_next; intros [= <-]; right; right; right;
             exists key, dx, dy, m; [exists true|exists false];
             exists calls; cbn; split_and!; try done; auto.
        -- intros [= <-]. right; right; left.
           exists key, dx, dy, m, VALID. cbn. split_and!; try done.
           intros [_ ?]. congruence.
      * intros [= <-]. right; right; left.
        exists key, dx, dy, m, r. cbn. split_and!; try done.
        by intros [? _].
    + destruct key; try done; intros [= <-]; cbn.
      * left. auto.
      * right; left. auto.
      * left. auto.
  - intros [= <-]. left. auto.
Qed.

(** ** Invariants of the loop *)

(** What holds before the loop and is kept by every event holds when the
    loop is left. *)
Lemma handle_events_invariant (P : Loop → Prop) st events st' :
  (∀ st event st', P st → handle_event st event = Ok st' → P st') →
  P st → handle_events st events = Ok st' → P st'.
Proof.
  intros Hstep. revert st.
  induction events as [|event events IH]; intros st HP; simpl.
  - by intros [= <-].
  - destruct (handle_event st event) as [st1|e] eqn:E; [|done]. cbn [bind].
    apply IH. by eapply Hstep.
Qed.

Lemma while_running_invariant (P : Loop → Prop) st batches st' :
  (∀ st event st', P st → handle_event st event = Ok st' → P st') →
  P st → while_running st batches = Ok st' → P st'.
Proof.
  intros Hstep. revert st.
  induction batches as [|events batches IH]; intros st HP; simpl.
  - by intros [= <-].
  - destruct (running st); [|by intros [= <-]].
    destruct (handle_events st events) as [st1|e] eqn:E; [|done]. cbn [bind].
    apply IH. by eapply handle_events_invariant.
Qed.

(** [game_loop] is the [while] loop from the first screen, up to the last
    screen. *)
Lemma game_loop_inv self batches st :
  game_loop self batches = Ok st →
  ∃ st1,
    while_running
      (mkLoop self true false
         [Render (model self);
          ShowScore (score self) (current_level_number self + 1)])
      batches = Ok st1
    ∧ ctl st = ctl st1 ∧ running st = running st1
    ∧ game_completed st = game_completed st1
    ∧ announced (screen st) = announced (screen st1).
Proof.
  unfold game_loop.
  destruct (while_running _ batches) as [st1|e] eqn:E; [|done]. cbn [bind].
  intros [= <-]. exists st1. split; [done|].
  destruct (game_completed st1) eqn:Hc; cbn; rewrite ?Hc; split_and!;
    try done.
  by rewrite announced_app, app_nil_r.
Qed.

Lemma Controller_init_inv files level0 n self calls :
  Controller_init files level0 n = Ok (self, calls) →
  level_files self = files ∧ current_level_number self = n
  ∧ score self = 0
  ∧ model self = Model_init (current_level self)
  ∧ (if decide (0 ≤ n < Z.of_nat (length files))
     then files !! Z.to_nat n = Some (current_level self)
     else level0 = Some (current_level self)).
Proof.
  unfold Controller_init. case_decide as Hn.
  - destruct (py_index files n) as [f|e] eqn:E; [|done]. cbn [bind].
    intros [= <- <-]. cbn. split_and!; try done.
    apply py_index_inv in E as [_ E]. apply E. lia.
  - destruct level0 as [f|]; [|done]. cbn [bind].
    intros [= <- <-]. by cbn.
Qed.

(** The board stays a board of the current level. *)
Lemma handle_event_board_of_level st event st' :
  board_of_level (ctl st) → handle_event st event = Ok st' →
  board_of_level (ctl st').
Proof.
  intros (bd & Hreach & Hbd) H.
  apply handle_event_inv in H
    as [(-> & _)|[(_ & -> & _)|[(key & dx & dy & m & r & _ & _ & Hm & _ & -> & _)
       |(key & dx & dy & m & has_next & calls & _ & _ & Hm & _ & Hl & _)]]].
  - by exists bd.
  - exists (SokobanModel.init (current_level (ctl st))).
    split; [apply reach_init|apply forget_init].
  - rewrite Hbd in Hm. apply move_forget_inv in Hm as (bd' & Hm & ->).
    exists bd'. split; [|done]. by eapply reach_move.
  - rewrite Hbd in Hm. apply move_forget_inv in Hm as (bd' & Hm & ->).
    apply load_next_level_inv in Hl
      as (_ & _ & _ & [(_ & _ & _ & Hmodel)|(_ & _ & Hmodel & Hcur)]).
    + exists (SokobanModel.init (current_level (ctl st'))).
      split; [apply reach_init|]. by rewrite Hmodel, forget_init.
    + exists bd'. unfold board_of_level. rewrite Hcur, Hmodel. cbn.
      split; [|done]. by eapply reach_move.
Qed.

(** The level files stay the same and the level number does not go down. *)
Lemma handle_event_files st event st' :
  handle_event st event = Ok st' →
  level_files (ctl st') = level_files (ctl st)
  ∧ current_level_number (ctl st) ≤ current_level_number (ctl st').
Proof.
  intros H. apply handle_event_inv in H
    as [(-> & _)|[(_ & -> & _)|[(key & dx & dy & m & r & _ & _ & _ & _ & -> & _)
       |(key & dx & dy & m & has_next & calls & _ & _ & _ & _ & Hl & _)]]];
    try (cbn; split; [done|lia]).
  apply load_next_level_inv in Hl as (-> & -> & _). cbn. split; [done|lia].
Qed.

(** The current level is the file of the current level number, when that
    number is the index of a file. *)
Lemma handle_event_synced st event st' :
  (0 ≤ current_level_number (ctl st)
     < Z.of_nat (length (level_files (ctl st))) →
   level_files (ctl st) !! Z.to_nat (current_level_number (ctl st))
   = Some (current_level (ctl st))) →
  handle_event st event = Ok st' →
  (0 ≤ current_level_number (ctl st')
     < Z.of_nat (length (level_files (ctl st'))) →
   level_files (ctl st') !! Z.to_nat (current_level_number (ctl st'))
   = Some (current_level (ctl st'))).
Proof.
  intros Hs H. apply handle_event_inv in H
    as [(-> & _)|[(_ & -> & _)|[(key & dx & dy & m & r & _ & _ & _ & _ & -> & _)
       |(key & dx & dy & m & has_next & calls & _ & _ & _ & _ & Hl & _)]]];
    try done.
  apply load_next_level_inv in Hl
    as (-> & Hn & _ & [(_ & _ & Hidx & _)|(_ & Hlen & _ & _)]); cbn in *.
  - intros Hr. apply py_index_inv in Hidx as [_ Hidx]. apply Hidx. lia.
  - lia.
Qed.

(** X14. Throughout a session the board in play is a board that moves
    reach from the board built from the current level; the current level is
    the file whose index is the level number, while that number is the
    index of a file; and a restart (the [r] key), when it returns, has put
    back the board built from that file, with the score and the level
    number as they were. When the current level has an agent glyph the
    walls and the boxes of the board in play are therefore disjoint and its
    agent is on neither. *)
Theorem X14_board_of_current_level files level0 n self calls batches st :
  Controller_init files level0 n = Ok (self, calls) →
  game_loop self batches = Ok st →
  board_of_level (ctl st)
  ∧ level_files (ctl st) = files
  ∧ (0 ≤ current_level_number (ctl st) < Z.of_nat (length files) →
     files !! Z.to_nat (current_level_number (ctl st))
     = Some (current_level (ctl st)))
  ∧ (∀ st', handle_event st (KEYDOWN K_r) = Ok st' →
            model (ctl st') = Model_init (current_level (ctl st))
            ∧ move_count (model (ctl st')) = 0
            ∧ score (ctl st') = score (ctl st)
            ∧ current_level_number (ctl st')
              = current_level_number (ctl st))
  ∧ (has_agent (current_level (ctl st)) →
     walls (model (ctl st)) ∩ boxes (model (ctl st)) = ∅
     ∧ ∃ agent, player (model (ctl st)) = Some agent
                ∧ (agent ∉ walls (model (ctl st)))
                ∧ (agent ∉ boxes (model (ctl st)))).
Proof.
  intros Hinit Hloop.
  apply Controller_init_inv in Hinit as (Hf & Hn & _ & Hm & Hcur).
  apply game_loop_inv in Hloop as (st1 & Hw & Hctl & _).
  assert (board_of_level (ctl st1)
          ∧ level_files (ctl st1) = files
          ∧ (0 ≤ current_level_number (ctl st1)
               < Z.of_nat (length (level_files (ctl st1))) →
             level_files (ctl st1) !! Z.to_nat (current_level_number (ctl st1))
             = Some (current_level (ctl st1)))) as (Hb & Hfiles & Hsync).
  { refine (while_running_invariant
              (λ s, board_of_level (ctl s)
                    ∧ level_files (ctl s) = files
                    ∧ (0 ≤ current_level_number (ctl s)
                         < Z.of_nat (length (level_files (ctl s))) →
                       level_files (ctl s)
                         !! Z.to_nat (current_level_number (ctl s))
                       = Some (current_level (ctl s))))
              _ _ _ _ _ Hw).
    - intros st0 event st0' (Hb0 & Hf0 & Hs0) H. split_and!.
      + by eapply handle_event_board_of_level.
      + apply handle_event_files in H as [-> _]. done.
      + by eapply handle_event_synced.
    - cbn. split_and!; [|done|].
      + exists (SokobanModel.init (current_level self)).
        split; [apply reach_init|by rewrite Hm, forget_init].
      + rewrite Hf, Hn. intros Hr. by rewrite decide_True in Hcur. }
  rewrite Hctl. split_and!; [done|done|by rewrite <- Hfiles| |].
  - intros st' [= <-]. cbn. rewrite Hctl.
    split_and!; try done. apply Model_init_move_count.
  - intros Hag. destruct Hb as (bd & Hreach & ->).
    destruct (reachable_invariant _ _ Hag Hreach) as [Hd (agent & ? & ? & ?)].
    split; [done|]. by exists agent.
Qed.

Lemma X14_board_of_current_level_witness :
  ∃ self calls st,
    Controller_init two_level_files None 0 = Ok (self, calls)
    ∧ game_loop self two_pushes = Ok st
    ∧ level_files (ctl st) = two_level_files
    ∧ board_of_level (ctl st).
Proof.
  destruct two_level_session as (self & calls & st & Hinit & Hloop & _).
  exists self, calls, st.
  destruct (X14_board_of_current_level _ _ _ _ _ _ _ Hinit Hloop)
    as (Hb & Hf & _).
  by split_and!.
Defined.

(** A completion comes after at least one counted move. *)
Lemma completes_move_count st event m :
  board_of_level (ctl st) → completes st event m → 1 ≤ move_count m.
Proof.
  intros (bd & Hreach & Hbd) (key & dx & dy & _ & _ & Hm & _).
  rewrite Hbd in Hm. apply move_forget_inv in Hm as (bd' & Hm & ->).
  apply reachable_counters in Hreach.
  apply move_inv in Hm
    as (x & y & _ & [(_ & _ & _ & ->)|[(_ & _ & _ & _ & ->)|[? _]]]);
    [cbn; lia|cbn; lia|done].
Qed.

Lemma sum_list_bounds (a b : Z) (l : list Z) :
  Forall (λ z, a ≤ z ≤ b) l →
  a * Z.of_nat (length l) ≤ sum_list l ≤ b * Z.of_nat (length l).
Proof.
  unfold sum_list. induction 1 as [|z l Hz _ IH]; simpl length; simpl foldr;
    lia.
Qed.

(** X12. In a session every amount that is announced for a completed level
    lies between 100 and 9990: a completion follows a valid move, so the
    move counter of the completed board is at least 1 and the full 10000
    points are never given. The final score of a session with [k]
    announcements is therefore between [100 * k] and [9990 * k]. *)
Theorem X12_score_bounds files level0 n self calls batches st :
  Controller_init files level0 n = Ok (self, calls) →
  game_loop self batches = Ok st →
  Forall (λ z, 100 ≤ z ≤ 9990) (announced (screen st))
  ∧ 100 * Z.of_nat (length (announced (screen st))) ≤ score (ctl st)
    ≤ 9990 * Z.of_nat (length (announced (screen st))).
Proof.
  intros Hinit Hloop.
  assert (Forall (λ z, 100 ≤ z ≤ 9990) (announced (screen st))) as Hall.
  { apply Controller_init_inv in Hinit as (_ & _ & _ & Hm & _).
    apply game_loop_inv in Hloop as (st1 & Hw & _ & _ & _ & ->).
    refine (proj1 (while_running_invariant
              (λ s, Forall (λ z, 100 ≤ z ≤ 9990) (announced (screen s))
                    ∧ board_of_level (ctl s))
              _ _ _ _ _ Hw)).
    - intros st0 event st0' [Hall0 Hb0] H. split;
        [|by eapply handle_event_board_of_level].
      apply handle_event_score in H
        as [(m & Hc & _ & _ & ->)|(_ & _ & _ & ->)]; [|done].
      apply Forall_app. split; [done|]. apply Forall_singleton.
      pose proof (completes_move_count _ _ _ Hb0 Hc).
      unfold level_score, get_move_count. lia.
    - cbn. split; [done|].
      exists (SokobanModel.init (current_level self)).
      split; [apply reach_init|by rewrite Hm, forget_init]. }
  split; [done|].
  apply game_loop_balance in Hloop as [-> _].
  apply Controller_init_score in Hinit as [-> _].
  apply sum_list_bounds in Hall. lia.
Qed.

Lemma X12_score_bounds_witness :
  ∃ self calls st,
    Controller_init two_level_files None 0 = Ok (self, calls)
    ∧ game_loop self two_pushes = Ok st
    ∧ 200 ≤ score (ctl st) ≤ 19980.
Proof.
  destruct two_level_session as (self & calls & st & Hinit & Hloop & Ha & _).
  exists self, calls, st. split_and!; [done|done| |];
    destruct (X12_score_bounds _ _ _ _ _ _ _ Hinit Hloop) as [_ Hs];
    rewrite Ha in Hs; simpl in Hs; lia.
Defined.

(** X15. A session is declared complete exactly when a completion has
    taken the level number to the number of level files or beyond, and a
    complete session is not running any more. *)
Theorem X15_game_completed files level0 n self calls batches st :
  Controller_init files level0 n = Ok (self, calls) →
  game_loop self batches = Ok st →
  (game_completed st = true
   ↔ n < current_level_number (ctl st)
     ∧ Z.of_nat (length files) ≤ current_level_number (ctl st))
  ∧ (game_completed st = true → running st = false).
Proof.
  intros Hinit Hloop.
  apply Controller_init_inv in Hinit as (Hf & Hn & _).
  apply game_loop_inv in Hloop as (st1 & Hw & -> & -> & -> & _).
  set (P := λ s : Loop,
          level_files (ctl s) = files
          ∧ n ≤ current_level_number (ctl s)
          ∧ (game_completed s = true →
             running s = false ∧ n < current_level_number (ctl s)
             ∧ Z.of_nat (length files) ≤ current_level_number (ctl s))
          ∧ (game_completed s = false →
             current_level_number (ctl s) = n
             ∨ current_level_number (ctl s) < Z.of_nat (length files))).
  assert (P st1) as (_ & _ & Hyes & Hno);
    [refine (while_running_invariant P _ _ _ _ _ Hw); subst P; cbv beta|].
  - intros st0 event st0' (Hf0 & Hn0 & Hy0 & Hn0') H.
    apply handle_event_inv in H
      as [(-> & -> & Hr)|[(_ & -> & -> & ->)|[(key & dx & dy & m & r & _ & _ & _ & _ & -> & -> & ->)
         |(key & dx & dy & m & has_next & calls0 & _ & _ & _ & _ & Hl & Hflags)]]];
      cbn [set_model level_files current_level_number]; try done.
    + split_and!; try done. intros Hc. destruct (Hy0 Hc) as (Hrun & ? & ?).
      split_and!; try done. destruct Hr as [->| ->]; done.
    + apply load_next_level_inv in Hl
        as (-> & -> & _ & [(Hnext & Hlt & _)|(Hnext & Hge & _)]);
        cbn [set_model level_files current_level_number] in *;
        rewrite ?Hf0 in *;
        destruct Hflags as [(? & -> & ->)|(? & -> & ->)]; try congruence.
      * split_and!; [done|lia| |].
        -- intros Hc. destruct (Hy0 Hc) as (_ & _ & ?). lia.
        -- intros _. by right.
      * split_and!; [done|lia| |done]. intros _. split_and!; [done|lia|lia].
  - cbn. rewrite Hf, Hn. split_and!; try done. by left.
  - split; [|by intros Hc; apply Hyes].
    split; [by intros Hc; apply Hyes|].
    intros [? ?]. destruct (game_completed st1) eqn:E; [done|].
    destruct (Hno eq_refl); lia.
Qed.

Lemma X15_game_completed_witness :
  ∃ self calls st,
    Controller_init two_level_files None 0 = Ok (self, calls)
    ∧ game_loop self two_pushes = Ok st
    ∧ running st = false
    ∧ 2 ≤ current_level_number (ctl st).
Proof.
  destruct two_level_session as (self & calls & st & Hinit & Hloop & _ & Hc).
  exists self, calls, st.
  destruct (X15_game_completed _ _ _ _ _ _ _ Hinit Hloop) as [Hiff Hrun].
  split_and!; [done|done|by apply Hrun|].
  apply Hiff in Hc as [_ Hlen]. exact Hlen.
Defined.

(** ** Sessions all of whose levels have an agent *)

Lemma session_ok_player self :
  session_ok self → is_Some (player (model self)).
Proof.
  intros (Hag & _ & _ & bd & Hreach & ->). cbn.
  by eapply reachable_has_player.
Qed.

Lemma handle_event_session_ok st event st' :
  session_ok (ctl st) → handle_event st event = Ok st' →
  session_ok (ctl st').
Proof.
  intros (Hag & Hall & Hn & Hb) H.
  assert (board_of_level (ctl st')) as Hb'
    by by eapply handle_event_board_of_level.
  unfold session_ok.
  apply handle_event_inv in H
    as [(Hctl & _)|[(_ & Hctl & _)|[(key & dx & dy & m & r & _ & _ & _ & _ & Hctl & _)
       |(key & dx & dy & m & has_next & calls & _ & _ & _ & _ & Hl & _)]]];
    [split_and!; [| | |done]; rewrite Hctl; done..|].
  - apply load_next_level_inv in Hl
      as (Hf & Hnum & _ & [(_ & _ & Hidx & _)|(_ & _ & _ & Hcur)]);
      cbn [set_model level_files current_level_number current_level] in *.
    + split_and!; [|by rewrite Hf|lia|done].
      apply py_index_inv in Hidx as [Hin _].
      by eapply (proj1 (Forall_forall _ _) Hall).
    + split_and!; [by rewrite Hcur|by rewrite Hf|lia|done].
Qed.

(** A controller created on level files that all have an agent. *)
Lemma Controller_init_session_ok files level0 n self calls :
  Controller_init files level0 n = Ok (self, calls) →
  0 ≤ n →
  Forall has_agent files →
  (∀ f, level0 = Some f → has_agent f) →
  session_ok self.
Proof.
  intros Hinit Hn Hall H0.
  apply Controller_init_inv in Hinit as (Hf & Hnum & _ & Hm & Hcur).
  split_and!.
  - case_decide.
    + eapply (proj1 (Forall_forall _ _) Hall).
      by eapply list_elem_of_lookup_2.
    + by apply H0.
  - by rewrite Hf.
  - lia.
  - exists (SokobanModel.init (current_level self)).
    split; [apply reach_init|by rewrite Hm, forget_init].
Qed.

(** ** Leaving the loop *)

Lemma running_stays_false st event st' :
  handle_event st event = Ok st' → running st = false → running st' = false.
Proof.
  intros H Hr. apply handle_event_inv in H
    as [(_ & _ & [->| ->])|[(_ & _ & _ & ->)|[(key & dx & dy & m & r & _ & _ & _ & _ & _ & _ & ->)
       |(key & dx & dy & m & has_next & calls & _ & _ & _ & _ & _ & [(_ & _ & ->)|(_ & _ & ->)])]]];
    done.
Qed.

Lemma handle_events_quit st events st' :
  handle_events st events = Ok st' →
  running st = false ∨ QUIT ∈ events ∨ KEYDOWN K_ESCAPE ∈ events →
  running st' = false.
Proof.
  revert st. induction events as [|event events IH]; intros st; simpl.
  - intros [= <-] [?|[?%elem_of_nil|?%elem_of_nil]]; done.
  - destruct (handle_event st event) as [st1|e] eqn:E; [|done]. cbn [bind].
    intros H Hq. apply (IH _ H).
    destruct Hq as [Hr|[Hq|Hq]].
    + left. by eapply running_stays_false.
    + apply elem_of_cons in Hq as [<-|?]; [|auto].
      left. cbn in E. by injection E as <-.
    + apply elem_of_cons in Hq as [<-|?]; [|auto].
      left. cbn in E. by injection E as <-.
Qed.

Lemma while_running_stopped st batches :
  running st = false → while_running st batches = Ok st.
Proof. intros Hr. destruct batches; simpl; [done|]. by rewrite Hr. Qed.

Lemma while_running_app st batches1 batches2 :
  while_running st (batches1 ++ batches2)
  = do! st' ← while_running st batches1; while_running st' batches2.
Proof.
  revert st. induction batches1 as [|events batches1 IH]; intros st; simpl;
    [done|].
  destruct (running st) eqn:Hr.
  - destruct (handle_events st events) as [st1|e]; [|done]. cbn [bind].
    apply IH.
  - cbn [bind]. by rewrite while_running_stopped.
Qed.

(** X13. Once the events of one call of [pygame.event.get()] hold a [QUIT]
    or a press of the escape key, what comes in later calls is never
    handled: the session ends as if nothing had followed. *)
Theorem X13_quit_ends_session self batches events rest :
  QUIT ∈ events ∨ KEYDOWN K_ESCAPE ∈ events →
  game_loop self (batches ++ events :: rest)
  = game_loop self (batches ++ [events]).
Proof.
  intros Hq. unfold game_loop. rewrite !while_running_app.
  destruct (while_running _ batches) as [st1|e]; [|done]. cbn [bind].
  cbn [while_running]. destruct (running st1); [|done].
  destruct (handle_events st1 events) as [st2|e] eqn:E; [|done]. cbn [bind].
  rewrite while_running_stopped; [done|].
  eapply handle_events_quit; [exact E|by right].
Qed.

Lemma X13_quit_ends_session_witness :
  ∃ self calls,
    Controller_init two_level_files None 0 = Ok (self, calls)
    ∧ game_loop self ([] ++ [KEYDOWN K_RIGHT; QUIT] :: two_pushes)
      = game_loop self ([] ++ [[KEYDOWN K_RIGHT; QUIT]]).
Proof.
  destruct two_level_session as (self & calls & _ & Hinit & _).
  exists self, calls. split; [done|].
  apply (X13_quit_ends_session self [] [KEYDOWN K_RIGHT; QUIT] two_pushes).
  left. apply elem_of_cons. right. apply elem_of_cons. by left.
Defined.

End Session.

(** * The view of sokoban2.py *)

Section View.
Import SokobanPygameView.

Implicit Types (self : SokobanPygameView.t) (model : SokobanModel.t).

Lemma elem_of_range (n : nat) (z : Z) :
  z ∈ range n ↔ ∃ k : nat, z = Z.of_nat k ∧ (k < n)%nat.
Proof.
  unfold range. rewrite list_elem_of_fmap. split.
  - intros (k & -> & Hk). exists k. split; [done|].
    apply elem_of_seq in Hk. lia.
  - intros (k & -> & Hk). exists k. split; [done|].
    apply elem_of_seq. lia.
Qed.

(** The cells of a grid, row after row. *)
Lemma elem_of_grid {B} (f : Z → Z → B) (w h : nat) (b : B) :
  b ∈ (y ← range h; x ← range w; [f x y])
  ↔ ∃ x y : nat, (x < w)%nat ∧ (y < h)%nat ∧ b = f (Z.of_nat x) (Z.of_nat y).
Proof.
  rewrite list_elem_of_bind. split.
  - intros (y & (x & Hb & Hx)%list_elem_of_bind & Hy).
    apply list_elem_of_singleton in Hb.
    apply elem_of_range in Hx as (kx & -> & ?).
    apply elem_of_range in Hy as (ky & -> & ?). by exists kx, ky.
  - intros (x & y & Hx & Hy & ->). exists (Z.of_nat y).
    split; [|apply elem_of_range; by exists y].
    apply list_elem_of_bind. exists (Z.of_nat x).
    split; [by apply list_elem_of_singleton|].
    apply elem_of_range. by exists x.
Qed.

Lemma collect_results_Ok {B} (rs : list (result (list B))) (l : list B) :
  collect_results rs = Ok l →
  Forall (λ r, ∃ la, r = Ok la) rs
  ∧ ∀ b, b ∈ l ↔ ∃ la, Ok la ∈ rs ∧ b ∈ la.
Proof.
  revert l. induction rs as [|r rs IH]; intros l; simpl.
  - intros [= <-]. split; [done|]. intros b. split.
    + by intros ?%elem_of_nil.
    + by intros (la & ?%elem_of_nil & _).
  - destruct r as [a|e]; [|done]. cbn [bind].
    destruct (collect_results rs) as [l'|e] eqn:E; [|done]. cbn [bind].
    intros [= <-]. destruct (IH l' eq_refl) as [Hall Hin].
    split; [constructor; [by exists a|done]|].
    intros b. rewrite elem_of_app, Hin. split.
    + intros [?|(la & ? & ?)].
      * exists a. split; [by left|done].
      * exists la. split; [by right|done].
    + intros (la & [[= <-]|?]%elem_of_cons & ?); [by left|].
      right. by exists la.
Qed.

Lemma collect_results_returns {B} (rs : list (result (list B))) :
  Forall (λ r, ∃ la, r = Ok la) rs → ∃ l, collect_results rs = Ok l.
Proof.
  induction 1 as [|r rs [la ->] _ [l IH]]; simpl; [by eexists|].
  rewrite IH. by eexists.
Qed.

(** After [setup_display] the display surface holds the whole grid. *)
Lemma setup_display_fits self model :
  window_ok self →
  let self' := setup_display self (Some model) in
  screen_width self' = screen_width self
  ∧ screen_height self' = screen_height self
  ∧ tile_size self' = tile_size self
  ∧ window_ok self'
  ∧ Z.of_nat (SokobanModel.width model) * tile_size self ≤ (window self').1
  ∧ Z.of_nat (SokobanModel.height model) * tile_size self
    ≤ (window self').2.
Proof.
  unfold window_ok, setup_display. intros [Hw Hh]. cbv zeta.
  case_decide as Hbig; cbn [screen_width screen_height tile_size window];
    split_and!; try done; cbn [fst snd]; lia.
Qed.

Lemma symbol_returns model (x y : Z) :
  is_Some (SokobanModel.player model) →
  ∃ s, SokobanModel.symbol model x y = Ok s.
Proof.
  intros [agent Hp]. unfold SokobanModel.symbol, SokobanModel.get_player.
  rewrite Hp. cbn [bind]. repeat case_decide; by eexists.
Qed.

(** The symbol of the agent's cell, and of no other cell, is the agent or
    the agent on a goal, when the agent is not on a box. *)
Lemma symbol_is_agent model agent (x y : Z) s :
  SokobanModel.player model = Some agent →
  agent ∉ SokobanModel.boxes model →
  SokobanModel.symbol model x y = Ok s →
  (s = PLAYER ∨ s = PLAYER_ON_GOAL) ↔ (x, y) = agent.
Proof.
  intros Hp Hnb. unfold SokobanModel.symbol, SokobanModel.get_player.
  rewrite Hp. cbn [bind].
  repeat case_decide; intros [= <-]; split; try done;
    try (intros [?|?]; done); try (intros <-; done); auto.
Qed.

(** What a returning [render] has drawn: a floor tile for every cell of the
    grid, and the symbol of every cell of the grid that is not floor. *)
Lemma render_inv self model self' (blits : list Blit) :
  render self model = Ok (self', blits) →
  self' = setup_display self (Some model)
  ∧ (∀ x y : nat,
       (x < SokobanModel.width model)%nat →
       (y < SokobanModel.height model)%nat →
       ∃ s, SokobanModel.symbol model (Z.of_nat x) (Z.of_nat y) = Ok s)
  ∧ ∀ s pos,
      (s, pos) ∈ blits
      ↔ ∃ x y : nat,
          (x < SokobanModel.width model)%nat
          ∧ (y < SokobanModel.height model)%nat
          ∧ pos = tile_dest self' model (Z.of_nat x) (Z.of_nat y)
          ∧ (s = FLOOR
             ∨ SokobanModel.symbol model (Z.of_nat x) (Z.of_nat y) = Ok s).
Proof.
  unfold render. cbv zeta.
  set (self1 := setup_display self (Some model)).
  destruct (collect_results _) as [others|e] eqn:E; [|done]. cbn [bind].
  intros [= <- <-]. split; [done|].
  apply collect_results_Ok in E as [Hall Hin].
  rewrite Forall_forall in Hall. split.
  - intros x y Hx Hy.
    destruct (Hall (do! symbol ← SokobanModel.symbol model (Z.of_nat x)
                                   (Z.of_nat y);
                    Ok (if decide (symbol ≠ FLOOR)
                        then [(symbol, tile_dest self1 model (Z.of_nat x)
                                         (Z.of_nat y))]
                        else []))) as [la Hla].
    { apply elem_of_grid. by exists x, y. }
    destruct (SokobanModel.symbol model (Z.of_nat x) (Z.of_nat y)) as [s|];
      [by exists s|done].
  - intros s pos. rewrite elem_of_app, Hin. split.
    + intros [Hf|(la & Hla & Hb)].
      * apply (elem_of_grid (λ x y, (FLOOR, tile_dest self1 model x y)))
          in Hf as (x & y & Hx & Hy & [= -> ->]).
        exists x, y. split_and!; try done. by left.
      * apply elem_of_grid in Hla as (x & y & Hx & Hy & Hla).
        destruct (SokobanModel.symbol model (Z.of_nat x) (Z.of_nat y))
          as [s'|] eqn:Hs; [|done].
        cbn [bind] in Hla. injection Hla as ->.
        case_decide; [|by apply elem_of_nil in Hb].
        apply list_elem_of_singleton in Hb as [= -> ->].
        exists x, y. split_and!; try done. by right.
    + intros (x & y & Hx & Hy & -> & Hs).
      destruct (decide (s = FLOOR)) as [->|Hne].
      * left.
        apply (elem_of_grid (λ x y, (FLOOR, tile_dest self1 model x y))).
        by exists x, y.
      * right. destruct Hs as [?|Hs]; [done|].
        exists [(s, tile_dest self1 model (Z.of_nat x) (Z.of_nat y))].
        split; [|by apply list_elem_of_singleton].
        apply elem_of_grid. exists x, y. split_and!; try done.
        rewrite Hs. cbn [bind]. by rewrite decide_True.
Qed.

Lemma render_returns self model :
  is_Some (SokobanModel.player model) →
  ∃ self' blits, render self model = Ok (self', blits).
Proof.
  intros Hp. unfold render. cbv zeta.
  edestruct (collect_results_returns (B := Blit)) as [others ->];
    [|by eexists _, _].
  apply Forall_forall. intros r (x & y & _ & _ & ->)%elem_of_grid.
  destruct (symbol_returns model (Z.of_nat x) (Z.of_nat y) Hp) as [s ->].
  by eexists.
Qed.

(** X7. [render] on a board with an agent returns, and every tile it draws
    lies inside the display surface, which [setup_display] has made large
    enough for the grid: this holds for a view whose tile size is not
    negative and whose surface is at least as large as the size the view
    was created with, as it is from its creation on, and the view is left
    in such a state. *)
Theorem X7_render_inside_window self model :
  0 ≤ tile_size self →
  window_ok self →
  is_Some (SokobanModel.player model) →
  ∃ self' blits,
    render self model = Ok (self', blits)
    ∧ window_ok self'
    ∧ tile_size self' = tile_size self
    ∧ ∀ s px py,
        (s, (px, py)) ∈ blits →
        0 ≤ px ∧ px + tile_size self' ≤ (window self').1
        ∧ 0 ≤ py ∧ py + tile_size self' ≤ (window self').2.
Proof.
  intros Ht Hwin Hp.
  destruct (render_returns self model Hp) as (self' & blits & Hr).
  exists self', blits. split; [done|].
  apply render_inv in Hr as (Hself & _ & Hin).
  destruct (setup_display_fits self model Hwin)
    as (Hsw & Hsh & Hts & Hok & Hfw & Hfh).
  rewrite <- Hself in Hsw, Hsh, Hts, Hok, Hfw, Hfh.
  split_and!; [done|done|].
  intros s px py (x & y & Hx & Hy & Hpos & _)%Hin.
  unfold tile_dest in Hpos. injection Hpos as -> ->.
  rewrite Hsw, Hsh, Hts. destruct Hok as [Hok1 Hok2].
  rewrite Hsw in Hok1. rewrite Hsh in Hok2.
  set (w := SokobanModel.width model) in *.
  set (h := SokobanModel.height model) in *.
  set (t := tile_size self) in *.
  assert (0 ≤ Z.of_nat x * t ∧ Z.of_nat x * t + t ≤ Z.of_nat w * t)
    as [? ?] by nia.
  assert (0 ≤ Z.of_nat y * t ∧ Z.of_nat y * t + t ≤ Z.of_nat h * t)
    as [? ?] by nia.
  pose proof (Z.div_mod (screen_width self - Z.of_nat w * t) 2).
  pose proof (Z.mod_pos_bound (screen_width self - Z.of_nat w * t) 2).
  pose proof (Z.div_mod (screen_height self - Z.of_nat h * t) 2).
  pose proof (Z.mod_pos_bound (screen_height self - Z.of_nat h * t) 2).
  lia.
Qed.

Lemma X7_render_inside_window_witness :
  ∃ self' blits,
    render (init 800 600 64) (SokobanModel.init framed_level)
    = Ok (self', blits)
    ∧ window self' = (800, 600)
    ∧ length blits = 30%nat.
Proof.
  assert (match render (init 800 600 64) (SokobanModel.init framed_level)
          with
          | Ok (self', blits) => (window self', length blits)
          | Raise _ => ((0, 0), 0%nat)
          end = ((800, 600), 30%nat)) as Hsum by (vm_compute; reflexivity).
  destruct (X7_render_inside_window (init 800 600 64)
              (SokobanModel.init framed_level))
    as (self' & blits & Hr & _); [done|by split|by eexists|].
  rewrite Hr in Hsum. injection Hsum as Hw Hl. by exists self', blits.
Defined.

(** X8. [render] draws the agent exactly when the agent stands inside the
    grid of [width()] by [height()] cells, and then at the place of its
    cell: an agent that has walked out of the grid is not drawn at all.
    (The agent is assumed not to be on a box, as on every reachable
    board.) *)
Theorem X8_agent_drawn_iff_in_grid self model agent self' (blits : list Blit) :
  SokobanModel.player model = Some agent →
  agent ∉ SokobanModel.boxes model →
  render self model = Ok (self', blits) →
  ((∃ pos, (PLAYER, pos) ∈ blits ∨ (PLAYER_ON_GOAL, pos) ∈ blits)
   ↔ in_rect model agent)
  ∧ (∀ pos, (PLAYER, pos) ∈ blits ∨ (PLAYER_ON_GOAL, pos) ∈ blits →
            pos = tile_dest self' model agent.1 agent.2).
Proof.
  intros Hp Hnb (_ & Hsym & Hin)%render_inv.
  assert (∀ s pos, (s = PLAYER ∨ s = PLAYER_ON_GOAL) → (s, pos) ∈ blits →
          ∃ x y : nat, (x < SokobanModel.width model)%nat
                       ∧ (y < SokobanModel.height model)%nat
                       ∧ agent = (Z.of_nat x, Z.of_nat y)
                       ∧ pos = tile_dest self' model (Z.of_nat x) (Z.of_nat y))
    as Hdrawn.
  { intros s pos Hs (x & y & Hx & Hy & -> & [->|Hsxy])%Hin;
      [by destruct Hs|].
    exists x, y. split_and!; try done. symmetry.
    by apply (symbol_is_agent model agent _ _ s Hp Hnb Hsxy). }
  split.
  - split.
    + intros (pos & [H|H]);
        (eapply Hdrawn in H as (x & y & Hx & Hy & -> & _); [|by auto]);
        unfold in_rect; cbn [fst snd]; lia.
    + intros [[Hx0 Hx1] [Hy0 Hy1]]. destruct agent as [ax ay].
      cbn [fst snd] in *.
      destruct (Hsym (Z.to_nat ax) (Z.to_nat ay)) as [s Hs]; [lia|lia|].
      rewrite !Z2Nat.id in Hs by done.
      assert (s = PLAYER ∨ s = PLAYER_ON_GOAL) as Hag
        by by apply (symbol_is_agent model (ax, ay) _ _ s Hp Hnb Hs).
      exists (tile_dest self' model ax ay).
      assert ((s, tile_dest self' model ax ay) ∈ blits) as Hb.
      { apply Hin. exists (Z.to_nat ax), (Z.to_nat ay).
        rewrite !Z2Nat.id by done. split_and!; [lia|lia|done|by right]. }
      by destruct Hag as [-> | ->]; [left|right].
  - intros pos [H|H];
      (eapply Hdrawn in H as (x & y & _ & _ & -> & ->); [done|by auto]).
Qed.

Lemma X8_agent_drawn_iff_in_grid_witness :
  ∃ model self' (blits : list Blit),
    SokobanModel.move (SokobanModel.init lone_agent_level) 1 0
    = Ok (model, VALID)
    ∧ render (init 800 600 64) model = Ok (self', blits)
    ∧ ¬ ∃ pos, (PLAYER, pos) ∈ blits ∨ (PLAYER_ON_GOAL, pos) ∈ blits.
Proof.
  assert (match SokobanModel.move (SokobanModel.init lone_agent_level) 1 0
          with
          | Ok (m, r) =>
              (r, SokobanModel.player m, SokobanModel.size m,
               elements (SokobanModel.boxes m))
          | Raise _ => (INVALID_WALL, None, (0, 0)%nat, [])
          end = (VALID, Some (1, 0), (1, 1)%nat, [])) as Hsum
    by (vm_compute; reflexivity).
  destruct (SokobanModel.move (SokobanModel.init lone_agent_level) 1 0)
    as [[model r]|e]; [|done].
  injection Hsum as -> Hp Hsz Hb.
  destruct (render_returns (init 800 600 64) model) as (self' & blits & Hr);
    [by rewrite Hp|].
  exists model, self', blits. split_and!; [done|done|].
  assert ((1, 0) ∉ SokobanModel.boxes model) as Hnb.
  { rewrite <- elem_of_elements, Hb. apply not_elem_of_nil. }
  destruct (X8_agent_drawn_iff_in_grid _ _ _ _ _ Hp Hnb Hr) as [Hiff _].
  rewrite Hiff. unfold in_rect, SokobanModel.width. rewrite Hsz.
  cbn. lia.
Defined.

(** X9. The level buttons that [render_level_select] returns, one for each
    level file, never overlap each other or the back button: a point of
    the screen lies in at most one of them, so a click names at most one
    level. On a screen at least 570 wide and 520 high the buttons of the
    first twelve levels lie inside the screen. *)
Theorem X9_level_buttons_apart {A} self (level_files : list A) :
  length (render_level_select self level_files).2 = length level_files
  ∧ (∀ (i j : nat) bi bj p,
       (render_level_select self level_files).2 !! i = Some bi →
       (render_level_select self level_files).2 !! j = Some bj →
       collidepoint bi p = true → collidepoint bj p = true → i = j)
  ∧ (∀ (i : nat) bi p,
       (render_level_select self level_files).2 !! i = Some bi →
       collidepoint bi p = true →
       collidepoint (render_level_select self level_files).1 p = false)
  ∧ (∀ (i : nat) bi,
       (render_level_select self level_files).2 !! i = Some bi →
       570 ≤ screen_width self → 520 ≤ screen_height self → (i < 12)%nat →
       0 ≤ left bi ∧ left bi + rect_width bi ≤ screen_width self
       ∧ 0 ≤ top bi ∧ top bi + rect_height bi ≤ screen_height self).
Proof.
  assert (∀ (i : nat) bi,
            (render_level_select self level_files).2 !! i = Some bi →
            bi = level_button self i) as Hbtn.
  { intros i bi. unfold render_level_select. cbn [snd].
    rewrite list_lookup_fmap. unfold enumerate.
    rewrite enumerate_from_lookup.
    destruct (level_files !! i); [|done]. by intros [= <-]. }
  split_and!.
  - clear Hbtn. unfold render_level_select. cbn [snd]. rewrite length_fmap.
    unfold enumerate. generalize 0%nat.
    induction level_files as [|a l IH]; intros k; simpl; [done|].
    by rewrite IH.
  - intros i j bi bj [px py] ->%Hbtn ->%Hbtn.
    unfold collidepoint, level_button. cbn.
    intros Hi%bool_decide_eq_true Hj%bool_decide_eq_true.
    pose proof (Z.div_mod (Z.of_nat i) 4).
    pose proof (Z.mod_pos_bound (Z.of_nat i) 4).
    pose proof (Z.div_mod (Z.of_nat j) 4).
    pose proof (Z.mod_pos_bound (Z.of_nat j) 4).
    lia.
  - intros i bi [px py] ->%Hbtn.
    unfold collidepoint, level_button, render_level_select. cbn.
    intros Hi%bool_decide_eq_true. apply bool_decide_eq_false.
    pose proof (Z.div_mod (Z.of_nat i) 4).
    pose proof (Z.mod_pos_bound (Z.of_nat i) 4).
    assert (0 ≤ Z.of_nat i `div` 4) by (apply Z.div_pos; lia).
    lia.
  - intros i bi ->%Hbtn Hw Hh Hi. unfold level_button. cbn.
    Z.div_mod_to_equations. lia.
Qed.

End View.

(** * The display is set up before a board is drawn *)

Section Display.
Import Sokoban.

Implicit Types (self : Controller) (st : Loop) (m : Model).
Implicit Types (tr : list ViewCall) (last : option (nat * nat)).

Lemma last_setup_app last tr1 tr2 :
  last_setup last (tr1 ++ tr2) = last_setup (last_setup last tr1) tr2.
Proof.
  revert last. induction tr1 as [|[] tr1 IH]; intros last; simpl; by rewrite ?IH.
Qed.

Lemma renders_sized_app last tr1 tr2 :
  renders_sized last (tr1 ++ tr2)
  ↔ renders_sized last tr1 ∧ renders_sized (last_setup last tr1) tr2.
Proof.
  revert last. induction tr1 as [|[] tr1 IH]; intros last; simpl;
    rewrite ?IH; tauto.
Qed.

(** The size of the board does not change while a level is played. *)
Lemma board_of_level_size self :
  board_of_level self →
  size (model self) = size (Model_init (current_level self)).
Proof.
  intros (bd & Hreach & ->). rewrite forget_init. cbn.
  induction Hreach as [|bd dx dy bd' r _ IH Hm]; [done|].
  rewrite <- IH.
  by apply move_inv in Hm
    as (x & y & _ & [(_ & _ & _ & ->)|[(_ & _ & _ & _ & ->)|[_ ->]]]).
Qed.

Lemma move_size m dx dy m' r :
  move m dx dy = Ok (m', r) → size m' = size m.
Proof.
  destruct (forget_push_count_surj m) as [bd ->].
  intros (bd' & Hm & ->)%move_forget_inv. cbn.
  by apply move_inv in Hm
    as (x & y & _ & [(_ & _ & _ & ->)|[(_ & _ & _ & _ & ->)|[_ ->]]]).
Qed.

Lemma load_next_level_calls self self' has_next calls :
  load_next_level self = Ok (self', has_next, calls) →
  (has_next = true ∧ calls = [SetupDisplay (model self')])
  ∨ (has_next = false ∧ calls = [] ∧ model self' = model self).
Proof.
  destruct self as [number sc files m current]. unfold load_next_level.
  case_decide.
  - destruct (py_index files (number + 1)); [|done]. cbn [bind].
    intros [= <- <- <-]. by left.
  - intros [= <- <- <-]. by right.
Qed.

(** What an event adds to the screen: boards of the size the display is
    set up for, the display being set up anew before a board of a new
    level is drawn. *)
Lemma handle_event_screen st event st' :
  board_of_level (ctl st) →
  handle_event st event = Ok st' →
  ∃ added,
    screen st' = screen st ++ added
    ∧ renders_sized (Some (size (model (ctl st)))) added
    ∧ last_setup (Some (size (model (ctl st)))) added
      = Some (size (model (ctl st'))).
Proof.
  intros Hb. pose proof (board_of_level_size _ Hb) as Hsz.
  destruct event as [|key|]; cbn [handle_event].
  - intros [= <-]. exists []. by rewrite app_nil_r.
  - destruct (key_delta key) as [[dx dy]|] eqn:Hk.
    + destruct (move (model (ctl st)) dx dy) as [[m r]|e] eqn:Hm; [|done].
      apply move_size in Hm. cbn [bind].
      assert (model (set_model (ctl st) m) = m) as Hmodel by done.
      set (self1 := set_model (ctl st) m) in *.
      unfold after_move. cbv beta iota zeta. rewrite Hmodel.
      unfold handle_move_response. rewrite Hmodel.
      destruct (decide (r = VALID)) as [->|Hr].
      * rewrite decide_False by (by intros ?). rewrite app_nil_r.
        destruct (is_level_complete m).
        -- destruct (load_next_level self1)
             as [[[self' has_next] calls]|e] eqn:E; [|done].
           cbn [bind].
           apply load_next_level_calls in E
             as [[-> ->]|(-> & -> & Hsame)]; intros [= <-];
             eexists; rewrite <- !app_assoc;
             (split; [reflexivity|]); cbn; rewrite ?Hsame, ?Hmodel, Hm;
             by split_and!.
        -- intros [= <-]. eexists. split; [reflexivity|]. cbn.
           by rewrite Hm.
      * rewrite decide_True by done. intros [= <-].
        eexists. split; [reflexivity|]. cbn. by rewrite Hm.
    + destruct key; try done; intros [= <-];
        try (exists []; by rewrite app_nil_r).
      eexists. split; [reflexivity|]. cbn. by rewrite Hsz.
  - intros [= <-]. exists []. by rewrite app_nil_r.
Qed.

(** X16. In a session, from the creation of the controller on, a board is
    only ever drawn when the display was last set up for a board of its
    size: the controller sets the display up when it is created and for
    every next level, and restarts and moves keep the size of the board. *)
Theorem X16_display_set_up_before_render
    files level0 n self calls batches st :
  Controller_init files level0 n = Ok (self, calls) →
  game_loop self batches = Ok st →
  renders_sized None (calls ++ screen st)
  ∧ last_setup None (calls ++ screen st) = Some (size (model (ctl st))).
Proof.
  intros Hinit Hloop.
  assert (calls = [SetupDisplay (model self)]) as ->.
  { unfold Controller_init in Hinit.
    destruct (if decide _ then _ else _) as [f|e]; [|done].
    by injection Hinit as <- <-. }
  apply Controller_init_inv in Hinit as (_ & _ & _ & Hm & _).
  unfold game_loop in Hloop.
  destruct (while_running _ batches) as [st1|e] eqn:Hw; [|done].
  cbn [bind] in Hloop.
  set (P := λ s : Loop,
          board_of_level (ctl s)
          ∧ renders_sized None ([SetupDisplay (model self)] ++ screen s)
          ∧ last_setup None ([SetupDisplay (model self)] ++ screen s)
            = Some (size (model (ctl s)))).
  assert (P st1) as (_ & Hr & Hl);
    [refine (while_running_invariant P _ _ _ _ _ Hw); subst P; cbv beta|].
  - intros st0 event st0' (Hb0 & Hr0 & Hl0) H.
    split; [by eapply handle_event_board_of_level|].
    apply handle_event_screen in H as (added & -> & Hra & Hla); [|done].
    rewrite app_assoc. split.
    + apply renders_sized_app. by rewrite Hl0.
    + by rewrite (last_setup_app _ (_ ++ screen st0)), Hl0.
  - cbn. split_and!; try done.
    exists (SokobanModel.init (current_level self)).
    split; [apply reach_init|by rewrite Hm, forget_init].
  - injection Hloop as <-.
    destruct (game_completed st1); cbn [ctl screen]; [|done].
    rewrite app_assoc. split.
    + apply renders_sized_app. by rewrite Hl.
    + by rewrite (last_setup_app _ (_ ++ screen st1)), Hl.
Qed.

Lemma X16_display_set_up_before_render_witness :
  ∃ self calls st,
    Controller_init two_level_files None 0 = Ok (self, calls)
    ∧ game_loop self two_pushes = Ok st
    ∧ renders_sized None (calls ++ screen st).
Proof.
  destruct two_level_session as (self & calls & st & Hinit & Hloop & _).
  exists self, calls, st.
  destruct (X16_display_set_up_before_render _ _ _ _ _ _ _ Hinit Hloop)
    as [Hr _].
  by split_and!.
Defined.

End Display.

(** * The boards handed to [render] of sokoban.py *)

Section SessionView.
Import Sokoban.

Implicit Types (self : Controller) (st : Loop) (m : Model).
Implicit Types (view : SokobanView.t).

Lemma board_symbol_returns m (x y : Z) :
  is_Some (player m) → ∃ s, symbol m x y = Ok s.
Proof.
  intros [agent Hp]. unfold symbol. rewrite Hp. cbn [bind].
  repeat case_decide; by eexists.
Qed.

(** Without a [player] only the cells with a box have a symbol. *)
Lemma board_symbol_no_player m (x y : Z) :
  player m = None →
  symbol m x y
  = if decide ((x, y) ∈ boxes m)
    then Ok (if decide ((x, y) ∈ goals m) then BOX_ON_GOAL else BOX)
    else Raise AttributeError.
Proof.
  intros Hp. unfold symbol. rewrite Hp. cbn [bind]. repeat case_decide; done.
Qed.

(** A series of calls that raise nothing but [e] raises [e] as soon as one
    of them does. *)
Lemma collect_results_raises {B} (rs : list (result (list B))) e :
  Forall (λ r, (∃ la, r = Ok la) ∨ r = Raise e) rs →
  Raise e ∈ rs → collect_results rs = Raise e.
Proof.
  induction 1 as [|r rs Hr _ IH]; [by intros ?%elem_of_nil|].
  intros Hin. simpl. destruct Hr as [[la ->]| ->]; [|done].
  cbn [bind]. rewrite IH; [done|].
  apply elem_of_cons in Hin as [?|?]; done.
Qed.

Lemma board_render_returns view m :
  is_Some (player m) → ∃ blits, SokobanView.render view m = Ok blits.
Proof.
  intros Hp. unfold SokobanView.render.
  apply collect_results_returns, Forall_forall.
  intros r (x & y & _ & _ & ->)%elem_of_grid.
  destruct (board_symbol_returns m (Z.of_nat x) (Z.of_nat y) Hp) as [s ->].
  by eexists.
Qed.

(** What a returning [render] has drawn: the symbol of every cell of the
    grid whose symbol has an image, at the place of the cell. *)
Lemma board_render_inv view m (blits : list SokobanView.Blit) :
  SokobanView.render view m = Ok blits →
  ∀ s pos,
    (s, pos) ∈ blits
    ↔ ∃ x y : nat,
        (x < width m)%nat ∧ (y < height m)%nat
        ∧ symbol m (Z.of_nat x) (Z.of_nat y) = Ok s
        ∧ s ∈ SokobanView.images view
        ∧ pos = (Z.of_nat x * SokobanView.tile_size view,
                 Z.of_nat y * SokobanView.tile_size view).
Proof.
  unfold SokobanView.render. intros [_ Hin]%collect_results_Ok s pos.
  rewrite Hin. split.
  - intros (la & (x & y & Hx & Hy & Hla)%elem_of_grid & Hb).
    destruct (symbol m (Z.of_nat x) (Z.of_nat y)) as [s'|] eqn:Hs; [|done].
    cbn [bind] in Hla. injection Hla as ->.
    case_decide; [|by apply elem_of_nil in Hb].
    apply list_elem_of_singleton in Hb as [= -> ->].
    by exists x, y.
  - intros (x & y & Hx & Hy & Hs & Himg & ->).
    eexists. split; [|by apply list_elem_of_singleton].
    apply elem_of_grid. exists x, y. split_and!; try done.
    rewrite Hs. cbn [bind]. by rewrite decide_True.
Qed.

Lemma board_render_raises view m (x y : nat) :
  player m = None →
  (x < width m)%nat → (y < height m)%nat →
  (Z.of_nat x, Z.of_nat y) ∉ boxes m →
  SokobanView.render view m = Raise AttributeError.
Proof.
  intros Hp Hx Hy Hnb. unfold SokobanView.render.
  apply collect_results_raises.
  - apply Forall_forall. intros r (x' & y' & _ & _ & ->)%elem_of_grid.
    rewrite board_symbol_no_player by done.
    case_decide; [left; by eexists|by right].
  - apply elem_of_grid. exists x, y. split_and!; try done.
    rewrite board_symbol_no_player by done. by rewrite decide_False.
Qed.

Lemma move_player m dx dy m' r :
  move m dx dy = Ok (m', r) → is_Some (player m').
Proof.
  destruct (forget_push_count_surj m) as [bd ->].
  intros (bd' & Hm & ->)%move_forget_inv. cbn. by eapply move_keeps_player.
Qed.

(** What an event adds to the screen: the boards it hands to [render] are
    the board a move has left and the board in play after the event. *)
Lemma handle_event_added st event st' :
  handle_event st event = Ok st' →
  ∃ added,
    screen st' = screen st ++ added
    ∧ ∀ m0, Render m0 ∈ added →
        m0 = model (ctl st')
        ∨ ∃ dx dy r, move (model (ctl st)) dx dy = Ok (m0, r).
Proof.
  destruct event as [|key|]; cbn [handle_event].
  - intros [= <-]. exists []. rewrite app_nil_r. split; [done|].
    by intros m0 ?%elem_of_nil.
  - destruct (key_delta key) as [[dx dy]|] eqn:Hk.
    + destruct (move (model (ctl st)) dx dy) as [[m r]|e] eqn:Hm; [|done].
      cbn [bind].
      assert (model (set_model (ctl st) m) = m) as Hmodel by done.
      set (self1 := set_model (ctl st) m) in *.
      unfold after_move. cbv beta iota zeta. rewrite Hmodel.
      unfold handle_move_response. rewrite Hmodel.
      destruct (decide (r = VALID)) as [->|Hr].
      * rewrite decide_False by (by intros ?). rewrite app_nil_r.
        destruct (is_level_complete m).
        -- destruct (load_next_level self1)
             as [[[self' has_next] calls]|e] eqn:E; [|done].
           cbn [bind].
           apply load_next_level_calls in E
             as [[-> ->]|(-> & -> & Hsame)]; intros [= <-];
             eexists; rewrite <- !app_assoc;
             (split; [reflexivity|]); cbn [ctl model];
             intros m0 Hin;
             repeat (apply elem_of_cons in Hin as [Hin|Hin]);
             try apply elem_of_nil in Hin; try done;
             injection Hin as ->; eauto.
        -- intros [= <-]. eexists. split; [reflexivity|]. cbn [ctl model].
           intros m0 Hin.
           repeat (apply elem_of_cons in Hin as [Hin|Hin]);
             try apply elem_of_nil in Hin; try done.
           injection Hin as ->. eauto.
      * rewrite decide_True by done. intros [= <-].
        eexists. split; [reflexivity|]. cbn [ctl model].
        intros m0 Hin.
        repeat (apply elem_of_cons in Hin as [Hin|Hin]);
          try apply elem_of_nil in Hin; try done.
        injection Hin as ->. eauto.
    + destruct key; try done; intros [= <-];
        try (exists []; rewrite app_nil_r; split; [done|];
             by intros m0 ?%elem_of_nil).
      eexists. split; [reflexivity|]. cbn [ctl model].
      intros m0 Hin.
      repeat (apply elem_of_cons in Hin as [Hin|Hin]);
        try apply elem_of_nil in Hin; try done.
      injection Hin as ->. by left.
  - intros [= <-]. exists []. rewrite app_nil_r. split; [done|].
    by intros m0 ?%elem_of_nil.
Qed.

(** In a session all of whose levels have an agent, an event hands to
    [render] only boards with a [player]. *)
Lemma handle_event_render_ready st event st' :
  session_ok (ctl st) → handle_event st event = Ok st' →
  ∃ added, screen st' = screen st ++ added ∧ Forall render_ready added.
Proof.
  intros Hok H.
  pose proof (handle_event_session_ok _ _ _ Hok H) as Hok'.
  apply session_ok_player in Hok'.
  apply handle_event_added in H as (added & Hscr & Hadded).
  exists added. split; [done|]. apply Forall_forall.
  intros [?|m0|? ?|?|?|?] Hin; try done. cbn.
  destruct (Hadded m0 Hin) as [->|(dx & dy & r & Hm)]; [done|].
  by eapply move_player.
Qed.

(** X10. In a session whose level files all have an agent glyph (the
    fallback file too, if there is one) and which starts at a level number
    that is not negative, every board the controller hands to [render] has
    a [player]. So [render] reads the symbol of every cell of such a board
    without raising: it returns, having drawn the symbol of every cell of
    the grid whose symbol has an image, at the place of the cell. *)
Theorem X10_rendered_boards_have_agent
    files level0 n self calls batches st :
  Controller_init files level0 n = Ok (self, calls) →
  0 ≤ n →
  Forall has_agent files →
  (∀ f, level0 = Some f → has_agent f) →
  game_loop self batches = Ok st →
  Forall render_ready (screen st)
  ∧ ∀ view m,
      Render m ∈ screen st →
      ∃ blits,
        SokobanView.render view m = Ok blits
        ∧ ∀ s pos,
            (s, pos) ∈ blits
            ↔ ∃ x y : nat,
                (x < width m)%nat ∧ (y < height m)%nat
                ∧ symbol m (Z.of_nat x) (Z.of_nat y) = Ok s
                ∧ s ∈ SokobanView.images view
                ∧ pos = (Z.of_nat x * SokobanView.tile_size view,
                         Z.of_nat y * SokobanView.tile_size view).
Proof.
  intros Hinit Hn Hall H0 Hloop.
  pose proof (Controller_init_session_ok _ _ _ _ _ Hinit Hn Hall H0) as Hok.
  unfold game_loop in Hloop.
  destruct (while_running _ batches) as [st1|e] eqn:Hw; [|done].
  cbn [bind] in Hloop.
  set (P := λ s : Loop, session_ok (ctl s) ∧ Forall render_ready (screen s)).
  assert (P st1) as [_ Hready];
    [refine (while_running_invariant P _ _ _ _ _ Hw); subst P; cbv beta|].
  - intros st0 event st0' [Hok0 Hr0] H. split.
    + by eapply handle_event_session_ok.
    + apply handle_event_render_ready in H as (added & -> & Hadded); [|done].
      by apply Forall_app.
  - cbn. split; [done|]. repeat constructor. cbn.
    by apply session_ok_player.
  - assert (Forall render_ready (screen st)) as Hst.
    { injection Hloop as <-.
      destruct (game_completed st1); cbn [screen]; [|done].
      apply Forall_app. split; [done|]. by repeat constructor. }
    split; [done|]. intros view m Hin.
    rewrite Forall_forall in Hst. specialize (Hst _ Hin). cbn in Hst.
    destruct (board_render_returns view m Hst) as [blits Hr].
    exists blits. split; [done|]. by apply board_render_inv.
Qed.

Lemma X10_rendered_boards_have_agent_witness :
  ∃ self calls st,
    Controller_init two_level_files None 0 = Ok (self, calls)
    ∧ game_loop self two_pushes = Ok st
    ∧ Forall render_ready (screen st).
Proof.
  destruct two_level_session as (self & calls & st & Hinit & Hloop & _).
  assert (Forall has_agent two_level_files) as Hall.
  { repeat constructor; unfold has_agent; vm_compute; discriminate. }
  destruct (X10_rendered_boards_have_agent two_level_files None 0 self calls
              two_pushes st Hinit)
    as [Hready _]; [lia|exact Hall|discriminate|exact Hloop|].
  by exists self, calls, st.
Defined.

(** The first call of the view in [game_loop] is [render] with the board
    the controller was created with. *)
Lemma game_loop_first_render self batches st :
  game_loop self batches = Ok st →
  ∃ tr, screen st = Render (model self) :: tr.
Proof.
  unfold game_loop.
  destruct (while_running _ batches) as [st1|e] eqn:Hw; [|done].
  cbn [bind].
  set (P := λ s : Loop, ∃ tr, screen s = Render (model self) :: tr).
  assert (P st1) as [tr Htr];
    [refine (while_running_invariant P _ _ _ _ _ Hw); subst P; cbv beta|].
  - intros st0 event st0' [tr Htr] (added & -> & _)%handle_event_added.
    rewrite Htr. by eexists.
  - by eexists.
  - intros [= <-]. destruct (game_completed st1); cbn [screen];
      rewrite Htr; by eexists.
Qed.

(** X11. For a level without agent glyph, [render] of the board built from
    it raises [AttributeError] as soon as the grid has a cell without a
    box: the symbol of such a cell is found by reading [player], which the
    board does not have. A controller created on such a level hands that
    board to [render] in the first call [game_loop] makes of the view. *)
Theorem X11_render_without_agent view level_data (x y : nat) :
  agent_cells level_data = [] →
  (x < width (Model_init level_data))%nat →
  (y < height (Model_init level_data))%nat →
  (Z.of_nat x, Z.of_nat y) ∉ boxes (Model_init level_data) →
  SokobanView.render view (Model_init level_data) = Raise AttributeError
  ∧ ∀ files level0 n self calls batches st,
      Controller_init files level0 n = Ok (self, calls) →
      current_level self = level_data →
      game_loop self batches = Ok st →
      ∃ tr, screen st = Render (Model_init level_data) :: tr.
Proof.
  intros Hag Hx Hy Hnb. split.
  - apply (board_render_raises view _ x y); try done.
    rewrite forget_init. cbn. by apply init_no_player.
  - intros files level0 n self calls batches st Hinit <- Hloop.
    apply Controller_init_inv in Hinit as (_ & _ & _ & <- & _).
    by eapply game_loop_first_render.
Qed.

Lemma X11_render_without_agent_witness :
  SokobanView.render (SokobanView.mk 64 loaded_images)
    (Model_init no_agent_level)
  = Raise AttributeError.
Proof.
  apply (X11_render_without_agent (SokobanView.mk 64 loaded_images)
           no_agent_level 0 0).
  - vm_compute. reflexivity.
  - vm_compute. lia.
  - vm_compute. lia.
  - intros H. apply (bool_decide_pack _) in H. vm_compute in H. destruct H.
Defined.

End SessionView.

(** * The two variants of the board *)

Section Variants.

(** X17. The board class of sokoban.py behaves as the board class of
    sokoban2.py with the push counter left out: building a board from a
    level, [move] (its response, the board it leaves, and whether it
    raises) and [is_level_complete] give the same on both. *)
Theorem X17_boards_agree (level_data : list row) (m : SokobanModel.t)
    (dx dy : Z) :
  Sokoban.Model_init level_data
  = forget_push_count (SokobanModel.init level_data)
  ∧ Sokoban.move (forget_push_count m) dx dy
    = match SokobanModel.move m dx dy with
      | Ok (m', r) => Ok (forget_push_count m', r)
      | Raise e => Raise e
      end
  ∧ Sokoban.is_level_complete (forget_push_count m)
    = SokobanModel.is_level_complete m
  ∧ Sokoban.get_move_count (forget_push_count m)
    = SokobanModel.get_move_count m.
Proof.
  split_and!.
  - apply forget_init.
  - apply forget_move.
  - apply forget_is_level_complete.
  - reflexivity.
Qed.

End Variants.
